(** * Grove logo generators: branch synthesizer and reference tracer

    A shallow embedding of the scripts under [docs/]:
    - [create_dock_logo.py]    ([draw_branch]),
    - [create_dock_logo_v2.py] ([draw_organic_branch],
      [create_grove_dock_icon_v2], [create_supersampled_v2]),
    - [trace_logo.py]          ([trace_reference], [clean_and_resize],
      [create_light_version]).

    Conventions of the embedding.
    - Python [int] is [Z].  Python [float] is idealised as an exact rational
      ([Qc], canonical rationals with Leibniz equality); [math.sin],
      [math.cos] and [math.radians] are the operations of a [MathModule].
      Where a property turns on comparing a product of floats with a
      threshold, it is stated with a [margin] on either side of the
      threshold, so that rounding does not decide it.
    - An [ImageDraw] object is the sequence of drawing calls issued on it;
      the functions that draw thread it explicitly.  A call is logged as
      issued: that Pillow refuses an ellipse whose box is not [ordered_box]
      is stated where it matters, as a condition on the stroke width.
    - A raster image is its size and a finite map from pixel coordinates to
      pixel values; the Pillow routines the scripts call are modelled in
      [Module PIL], their purely numeric tables being fields of [Pillow];
      the upper limits of the library and of memory on the size of an image
      are left out.
    - A Python exception is the [Raise] case of [Result]. *)

From Stdlib Require Import ZArith QArith Qcanon Lia Lqa.
From stdpp Require Import base numbers list gmap.
From Equations Require Import Equations.

Local Open Scope Z_scope.
Local Open Scope Qc_scope.

(** ** Numbers *)

(** An [int] used where a [float] is expected. *)
Definition of_int (z : Z) : Qc := Qc_of_Z z.

(** [int(x)] on a float: truncation towards zero. *)
Definition py_int (x : Qc) : Z := Z.quot (Qnum x) (Zpos (Qden x)).

(** The functions of Python's [math] module used by the generators. *)
Class MathModule := {
  math_sin : Qc → Qc;
  math_cos : Qc → Qc;
  math_radians : Qc → Qc
}.

(** A rational instance of the interface (Taylor polynomials, 355/113 for
    pi), used to evaluate the generators on concrete inputs. *)
Definition poly_math : MathModule := {|
  math_sin x := x - x * x * x / of_int 6 + x * x * x * x * x / of_int 120;
  math_cos x := 1 - x * x / 2 + x * x * x * x / of_int 24;
  math_radians x := x * Q2Qc (355 # 113) / of_int 180
|}.

(** ** Drawing calls *)

Definition Color : Type := Z * Z * Z * Z.
Definition Point : Type := Qc * Qc.

(** One call on an [ImageDraw] object. *)
Inductive DrawOp :=
| DLine (start end_ : Point) (fill : Color) (width : Z)
| DEllipse (x0 y0 x1 y1 : Qc) (fill : Color)
| DPolygon (points : list Point) (fill : Color).

(** The [draw] object: the calls issued so far, oldest first. *)
Abbreviation ImageDraw := (list DrawOp).

Definition draw_line (draw : ImageDraw) (start end_ : Point) (fill : Color)
    (width : Z) : ImageDraw :=
  draw ++ [DLine start end_ fill width].

(** [draw.ellipse([x0, y0, x1, y1], fill=fill)].  The log records the call
    as issued; Pillow itself refuses a box that is not [ordered_box] with
    [ValueError], which the log does not show. *)
Definition draw_ellipse (draw : ImageDraw) (x0 y0 x1 y1 : Qc) (fill : Color)
    : ImageDraw :=
  draw ++ [DEllipse x0 y0 x1 y1 fill].

Definition draw_polygon (draw : ImageDraw) (points : list Point)
    (fill : Color) : ImageDraw :=
  draw ++ [DPolygon points fill].

Definition is_line (op : DrawOp) : bool :=
  match op with DLine _ _ _ _ => true | _ => false end.

(** Number of branch segments ([draw.line] calls) in a log. *)
Definition segments (draw : ImageDraw) : nat := length (filter is_line draw).

(** The calls Pillow carries out: [draw.ellipse] raises [ValueError] for a
    box whose right edge lies left of its left edge, or whose lower edge
    lies above its upper edge. *)
Definition ordered_box (op : DrawOp) : Prop :=
  match op with
  | DEllipse x0 y0 x1 y1 _ => x0 ≤ x1 ∧ y0 ≤ y1
  | _ => True
  end.

(** ** create_dock_logo.py *)

Section Branches.
Context {M : MathModule}.

(** [draw_branch(draw, start, angle, length, width, depth, max_depth, color)] *)
Equations? draw_branch (draw : ImageDraw) (start : Point)
    (angle length width : Qc) (depth max_depth : Z) (color : Color)
    : ImageDraw by wf (Z.to_nat (max_depth + 1 - depth)) lt :=
  draw_branch draw start angle length width depth max_depth color
    with decide ((depth > max_depth)%Z ∨ length < of_int 2) => {
    | left _ => draw
    | right _ =>
      let end_x := start.1 + length * math_sin (math_radians angle) in
      let end_y := start.2 - length * math_cos (math_radians angle) in
      let end_ := (end_x, end_y) in
      let draw := draw_line draw start end_ color (Z.max 1 (py_int width)) in
      let cap_radius := width / 2 in
      let draw := draw_ellipse draw
                    (end_x - cap_radius) (end_y - cap_radius)
                    (end_x + cap_radius) (end_y + cap_radius) color in
      let new_length := length * Q2Qc 0.65 in
      let new_width := width * Q2Qc 0.7 in
      let spread := (35 + depth * 5)%Z in
      let draw := draw_branch draw end_ (angle - of_int spread) new_length new_width
                    (depth + 1) max_depth color in
      draw_branch draw end_ (angle + of_int spread) new_length new_width
        (depth + 1) max_depth color }.
Proof. all: lia. Qed.

(** ** create_dock_logo_v2.py *)

(** One entry of [branch_data]: the dict with keys ['spread'],
    ['length_factor'] and ['width_factor']. *)
Record BranchParams := {
  spread : Qc;
  length_factor : Qc;
  width_factor : Qc
}.

(** The literal default of [branch_data.get(depth, ...)]. *)
Definition default_params : BranchParams :=
  {| spread := of_int 40; length_factor := Q2Qc 0.6; width_factor := Q2Qc 0.7 |}.

(** [draw_organic_branch(draw, start, angle, length, width, depth, max_depth,
    color, branch_data)] *)
Equations? draw_organic_branch (draw : ImageDraw) (start : Point)
    (angle length width : Qc) (depth max_depth : Z) (color : Color)
    (branch_data : gmap Z BranchParams)
    : ImageDraw by wf (Z.to_nat (max_depth + 1 - depth)) lt :=
  draw_organic_branch draw start angle length width depth max_depth color
      branch_data
    with decide ((depth > max_depth)%Z ∨ length < of_int 3 ∨ width < 1) => {
    | left _ => draw
    | right _ =>
      let end_x := start.1 + length * math_sin (math_radians angle) in
      let end_y := start.2 - length * math_cos (math_radians angle) in
      let end_ := (end_x, end_y) in
      let draw := draw_line draw start end_ color (Z.max 1 (py_int width)) in
      let cap_r := width / Q2Qc 2.2 in
      let draw := draw_ellipse draw (end_x - cap_r) (end_y - cap_r)
                    (end_x + cap_r) (end_y + cap_r) color in
      let params := default default_params (branch_data !! depth) in
      let new_length := length * length_factor params in
      let new_width := width * width_factor params in
      let spread := spread params in
      let left_spread := spread + of_int (depth * 3) in
      let right_spread := spread + of_int (depth * 2) in
      let draw := draw_organic_branch draw end_ (angle - left_spread)
                    new_length new_width (depth + 1) max_depth color
                    branch_data in
      draw_organic_branch draw end_ (angle + right_spread) new_length
        new_width (depth + 1) max_depth color branch_data }.
Proof. all: lia. Qed.

(** *** The recursion, call by call

    Ghost view of the two recursions above: every invocation in the order
    it is made, with the arguments it received, marked [Drew] when it got
    past the guard (and so drew one segment with its cap) and [Returned]
    when the guard sent it back at once. *)

Record Call := {
  c_start : Point;
  c_angle : Qc;
  c_length : Qc;
  c_width : Qc;
  c_depth : Z
}.

Inductive Visit :=
| Drew (c : Call)
| Returned (c : Call).

Definition visit_call (v : Visit) : Call :=
  match v with Drew c | Returned c => c end.

Definition drew (v : Visit) : bool :=
  match v with Drew _ => true | Returned _ => false end.

Definition call_end (c : Call) : Point :=
  ((c_start c).1 + c_length c * math_sin (math_radians (c_angle c)),
   (c_start c).2 - c_length c * math_cos (math_radians (c_angle c))).

(** What one invocation that passes the guard draws itself: the stroke and
    its cap, a circle of radius [cap] around the end point. *)
Definition segment_ops (cap : Qc) (color : Color) (c : Call) : list DrawOp :=
  [ DLine (c_start c) (call_end c) color (Z.max 1 (py_int (c_width c)));
    DEllipse ((call_end c).1 - cap) ((call_end c).2 - cap)
             ((call_end c).1 + cap) ((call_end c).2 + cap) color ].

Definition branch_cap (c : Call) : Qc := c_width c / 2.
Definition organic_cap (c : Call) : Qc := c_width c / Q2Qc 2.2.

Definition visit_ops (cap : Call → Qc) (color : Color) (v : Visit)
    : list DrawOp :=
  match v with
  | Drew c => segment_ops (cap c) color c
  | Returned _ => []
  end.

Equations? branch_visits (start : Point) (angle length width : Qc)
    (depth max_depth : Z) : list Visit
    by wf (Z.to_nat (max_depth + 1 - depth)) lt :=
  branch_visits start angle length width depth max_depth
    with decide ((depth > max_depth)%Z ∨ length < of_int 2) => {
    | left _ => [Returned (Build_Call start angle length width depth)]
    | right _ =>
      let c := Build_Call start angle length width depth in
      let spread := (35 + depth * 5)%Z in
      Drew c
        :: branch_visits (call_end c) (angle - of_int spread)
             (length * Q2Qc 0.65) (width * Q2Qc 0.7) (depth + 1) max_depth
        ++ branch_visits (call_end c) (angle + of_int spread)
             (length * Q2Qc 0.65) (width * Q2Qc 0.7) (depth + 1) max_depth }.
Proof. all: lia. Qed.

Equations? organic_visits (start : Point) (angle length width : Qc)
    (depth max_depth : Z) (branch_data : gmap Z BranchParams) : list Visit
    by wf (Z.to_nat (max_depth + 1 - depth)) lt :=
  organic_visits start angle length width depth max_depth branch_data
    with decide ((depth > max_depth)%Z ∨ length < of_int 3 ∨ width < 1) => {
    | left _ => [Returned (Build_Call start angle length width depth)]
    | right _ =>
      let c := Build_Call start angle length width depth in
      let params := default default_params (branch_data !! depth) in
      Drew c
        :: organic_visits (call_end c)
             (angle - (spread params + of_int (depth * 3)))
             (length * length_factor params) (width * width_factor params)
             (depth + 1) max_depth branch_data
        ++ organic_visits (call_end c)
             (angle + (spread params + of_int (depth * 2)))
             (length * length_factor params) (width * width_factor params)
             (depth + 1) max_depth branch_data }.
Proof. all: lia. Qed.

End Branches.

(** ** Exceptions *)

Inductive PyExc := ValueError | ZeroDivisionError | IndexError.

Inductive Result (A : Type) :=
| Ok (a : A)
| Raise (e : PyExc).
Arguments Ok {A} a.
Arguments Raise {A} e.

Global Instance Result_ret : MRet Result := λ A a, Ok a.
Global Instance Result_bind : MBind Result := λ A B f m,
  match m with Ok a => f a | Raise e => Raise e end.

(** [for i in l: s = body(i, s)], stopping at the first exception. *)
Fixpoint for_each {I S : Type} (body : I → S → Result S) (l : list I) (s : S)
    : Result S :=
  match l with
  | [] => Ok s
  | i :: l => s ← body i s; for_each body l s
  end.

(** ** Raster images *)

(** An RGBA pixel, channels in 0..255 (the same tuples as [Color]). *)
Definition Pixel : Type := Z * Z * Z * Z.

Definition red (p : Pixel) : Z := p.1.1.1.
Definition green (p : Pixel) : Z := p.1.1.2.
Definition blue (p : Pixel) : Z := p.1.2.
Definition alpha (p : Pixel) : Z := p.2.

(** An image of pixel type [A]: [im_size] is (width, height), [im_px] the
    pixel buffer indexed by (x, y). *)
Record Image (A : Type) := {
  im_size : Z * Z;
  im_px : gmap (Z * Z) A
}.
Arguments im_size {A} _.
Arguments im_px {A} _.

Definition in_image (size : Z * Z) (xy : Z * Z) : Prop :=
  (0 ≤ xy.1 < size.1 ∧ 0 ≤ xy.2 < size.2)%Z.

Global Instance in_image_dec size xy : Decision (in_image size xy).
Proof. unfold in_image. apply _. Defined.

(** The size is not negative and the buffer holds exactly the pixels of
    the image. *)
Definition well_formed {A} (img : Image A) : Prop :=
  (0 ≤ (im_size img).1 ∧ 0 ≤ (im_size img).2)%Z ∧
  ∀ xy, is_Some (im_px img !! xy) ↔ in_image (im_size img) xy.

Definition byte (z : Z) : Prop := (0 ≤ z ≤ 255)%Z.

Global Instance byte_dec z : Decision (byte z).
Proof. unfold byte. apply _. Defined.

(** A well-formed RGBA image: 8-bit channels. *)
Definition rgba_image (img : Image Pixel) : Prop :=
  well_formed img ∧
  ∀ xy p, im_px img !! xy = Some p →
    byte (red p) ∧ byte (green p) ∧ byte (blue p) ∧ byte (alpha p).

(** The numeric tables of Pillow that the scripts rely on but never look
    into: the luma transform of [convert('L')], the mask blend of [paste],
    the filter taps of [resize] (for an input length, an output length and
    an output index: the input indices read and their fixed-point weights)
    and the rasteriser's coverage test for one drawing call. *)
Class Pillow := {
  luma : Pixel → Z;
  blend : Z → Z → Z → Z;
  taps : Z → Z → Z → list (Z * Z);
  covers : DrawOp → Z * Z → Z * Z → bool
}.

Module PIL.
Section PIL.
Context {P : Pillow}.
Local Open Scope Z_scope.

(** Pixel coordinates of an image of the given size, row by row. *)
Definition coords (size : Z * Z) : list (Z * Z) :=
  y ← seqZ 0 size.2; x ← seqZ 0 size.1; [(x, y)].

(** A buffer of the given size with [f xy] at [xy]. *)
Definition tabulate {A} (size : Z * Z) (f : Z * Z → A) : gmap (Z * Z) A :=
  list_to_map ((λ xy, (xy, f xy)) <$> coords size).

(** [Image.new(mode, size, color)]: [ValueError] for a negative side.  No
    upper limit on the sides is modelled. *)
Definition new {A} (size : Z * Z) (color : A) : Result (Image A) :=
  if decide (size.1 < 0 ∨ size.2 < 0) then Raise ValueError
  else Ok {| im_size := size; im_px := tabulate size (λ _, color) |}.

(** [img.load()[x, y]]; the scripts index with [range] values only, so an
    index outside the image is the one error case. *)
Definition getpixel {A} (img : Image A) (xy : Z * Z) : Result A :=
  match im_px img !! xy with
  | Some p => Ok p
  | None => Raise IndexError
  end.

(** [img.load()[x, y] = value], under the same reading of the index. *)
Definition putpixel {A} (img : Image A) (xy : Z * Z) (value : A)
    : Result (Image A) :=
  if decide (in_image (im_size img) xy)
  then Ok {| im_size := im_size img; im_px := <[xy := value]> (im_px img) |}
  else Raise IndexError.

(** [img.convert('L')] *)
Definition convert_L (img : Image Pixel) : Image Z :=
  {| im_size := im_size img; im_px := luma <$> im_px img |}.

(** [img.point(f)] *)
Definition point (f : Z → Z) (img : Image Z) : Image Z :=
  {| im_size := im_size img; im_px := f <$> im_px img |}.

(** One step of the bounding-box scan: a pixel with data at [xy]. *)
Definition grow_bbox (bbox : option (Z * Z * Z * Z)) (xy : Z * Z)
    : option (Z * Z * Z * Z) :=
  match bbox with
  | None => Some (xy.1, xy.2, xy.1 + 1, xy.2 + 1)
  | Some (l, u, r, b) =>
    Some (Z.min l xy.1, Z.min u xy.2, Z.max r (xy.1 + 1), Z.max b (xy.2 + 1))
  end.

Definition has_data (img : Image Pixel) (xy : Z * Z) : bool :=
  match im_px img !! xy with
  | Some p => bool_decide (alpha p ≠ 0)
  | None => false
  end.

(** [img.getbbox()] on an RGBA image: the box (left, upper, right, lower)
    of the pixels that are not fully transparent, left and upper inclusive,
    right and lower exclusive as in every Pillow box; [None] when there is
    no such pixel. *)
Definition getbbox (img : Image Pixel) : option (Z * Z * Z * Z) :=
  foldl (λ bbox xy, if has_data img xy then grow_bbox bbox xy else bbox)
        None (coords (im_size img)).

(** [img.crop(box)] *)
Definition crop {A} (zero : A) (img : Image A) (box : Z * Z * Z * Z)
    : Result (Image A) :=
  let '(l, u, r, b) := box in
  if decide (r < l ∨ b < u) then Raise ValueError
  else
    let size := (r - l, b - u) in
    Ok {| im_size := size;
          im_px := tabulate size
                     (λ xy, default zero (im_px img !! (xy.1 + l, xy.2 + u))) |}.

Definition blend_pixel (mask : Z) (dst src : Pixel) : Pixel :=
  (blend mask (red dst) (red src), blend mask (green dst) (green src),
   blend mask (blue dst) (blue src), blend mask (alpha dst) (alpha src)).

(** [im.paste(src, (x, y), mask)] with an RGBA [mask] of the size of [src]:
    the part of [src] that falls inside [im] is blended in through the
    mask's alpha band. Returns the updated image. *)
Definition paste (im src : Image Pixel) (box : Z * Z) (mask : Image Pixel)
    : Image Pixel :=
  {| im_size := im_size im;
     im_px := map_imap (λ xy dst,
                Some match im_px src !! (xy.1 - box.1, xy.2 - box.2),
                           im_px mask !! (xy.1 - box.1, xy.2 - box.2) with
                     | Some s, Some m => blend_pixel (alpha m) dst s
                     | _, _ => dst
                     end) (im_px im) |}.

(** *** resize *)

Definition clip8 (z : Z) : Z := Z.max 0 (Z.min 255 z).

Definition muldiv255 (a b : Z) : Z :=
  let t := a * b + 128 in ((t ≫ 8) + t) ≫ 8.

(** RGBA to premultiplied RGBa and back. *)
Definition premultiply (p : Pixel) : Pixel :=
  (muldiv255 (red p) (alpha p), muldiv255 (green p) (alpha p),
   muldiv255 (blue p) (alpha p), alpha p).

Definition unpremultiply (p : Pixel) : Pixel :=
  if decide (alpha p = 0 ∨ alpha p = 255) then p
  else (clip8 (255 * red p / alpha p), clip8 (255 * green p / alpha p),
        clip8 (255 * blue p / alpha p), alpha p).

Definition precision_bits : Z := 32 - 8 - 2.

(** One output sample of one band: the weighted sum of the input samples
    named by the taps, rounded and clipped to 8 bits. *)
Definition filtered (band : Pixel → Z) (line : Z → option Pixel)
    (ts : list (Z * Z)) : Z :=
  let ss := foldl (λ ss t, ss + default 0 (band <$> line t.1) * t.2)
                  (1 ≪ (precision_bits - 1)) ts in
  clip8 (ss ≫ precision_bits).

Definition filtered_pixel (line : Z → option Pixel) (ts : list (Z * Z))
    : Pixel :=
  (filtered red line ts, filtered green line ts, filtered blue line ts,
   filtered alpha line ts).

Definition resample_horizontal (img : Image Pixel) (xsize : Z) : Image Pixel :=
  {| im_size := (xsize, (im_size img).2);
     im_px := tabulate (xsize, (im_size img).2) (λ xy,
                filtered_pixel (λ i, im_px img !! (i, xy.2))
                               (taps (im_size img).1 xsize xy.1)) |}.

Definition resample_vertical (img : Image Pixel) (ysize : Z) : Image Pixel :=
  {| im_size := ((im_size img).1, ysize);
     im_px := tabulate ((im_size img).1, ysize) (λ xy,
                filtered_pixel (λ j, im_px img !! (xy.1, j))
                               (taps (im_size img).2 ysize xy.2)) |}.

(** The two passes, each made only when its dimension changes. *)
Definition resample (img : Image Pixel) (size : Z * Z) : Image Pixel :=
  let img := if decide ((im_size img).1 = size.1) then img
             else resample_horizontal img size.1 in
  if decide ((im_size img).2 = size.2) then img
  else resample_vertical img size.2.

(** [img.resize(size, Image.Resampling.LANCZOS)] on an RGBA image: a copy
    when the size is unchanged, otherwise the filter applied to the
    premultiplied image. *)
Definition resize (img : Image Pixel) (size : Z * Z) : Result (Image Pixel) :=
  if decide (im_size img = size) then Ok img
  else if decide (size.1 < 1 ∨ size.2 < 1) then Raise ValueError
  else
    let im := {| im_size := im_size img;
                 im_px := premultiply <$> im_px img |} in
    let im := resample im size in
    Ok {| im_size := im_size im; im_px := unpremultiply <$> im_px im |}.

(** The pixels of an image after one drawing call on its [ImageDraw]. *)
Definition fill_of (op : DrawOp) : Color :=
  match op with
  | DLine _ _ fill _ | DEllipse _ _ _ _ fill | DPolygon _ fill => fill
  end.

Definition rasterize (img : Image Pixel) (op : DrawOp) : Image Pixel :=
  {| im_size := im_size img;
     im_px := map_imap (λ xy p,
                Some (if covers op (im_size img) xy then fill_of op else p))
                (im_px img) |}.

End PIL.
End PIL.

(** [range(n)] *)
Definition range (n : Z) : list Z := seqZ 0 n.

(** [a / b] on floats. *)
Definition py_div (a b : Qc) : Result Qc :=
  if decide (b = 0) then Raise ZeroDivisionError else Ok (a / b).

(** [max(a, b)] on floats. *)
Definition py_max (a b : Qc) : Qc := if decide (a < b) then b else a.

(** ** trace_logo.py *)

Section TraceLogo.
Context {P : Pillow}.
Local Open Scope Z_scope.

Definition transparent : Pixel := (0, 0, 0, 0).

(** [trace_reference()]; [ref] is the reference picture as opened and
    converted to RGBA by the first two lines of the function. *)
Definition trace_reference (ref : Image Pixel)
    : Result (Image Pixel * Image Z) :=
  let '(width, height) := im_size ref in
  left_half ← PIL.crop transparent ref (0, 0, width `div` 2, height);
  let gray := PIL.convert_L left_half in
  let threshold := 128 in
  let binary := PIL.point (λ p, if decide (p < threshold) then 255 else 0)
                          gray in
  result ← PIL.new (im_size binary) (0, 0, 0, 0);
  result ←
    for_each (λ y result,
      for_each (λ x result,
        p ← PIL.getpixel binary (x, y);
        if decide (p = 255) then PIL.putpixel result (x, y) (0, 0, 0, 255)
        else Ok result)
      (range (im_size binary).1) result)
    (range (im_size binary).2) result;
  Ok (result, binary).

(** [clean_and_resize(img, target_size, padding=0.1)] *)
Definition clean_and_resize (img : Image Pixel) (target_size : Z)
    (padding : Qc) : Result (Image Pixel) :=
  match PIL.getbbox img with
  | Some bbox =>
    cropped ← PIL.crop transparent img bbox;
    let '(cw, ch) := im_size cropped in
    let max_dim := Z.max cw ch in
    q ← py_div (of_int max_dim) (1 - 2 * padding)%Qc;
    let padded_size := py_int q in
    canvas ← PIL.new (padded_size, padded_size) (0, 0, 0, 0);
    let x := (padded_size - cw) `div` 2 in
    let y := (padded_size - ch) `div` 2 in
    let canvas := PIL.paste canvas cropped (x, y) cropped in
    PIL.resize canvas (target_size, target_size)
  | None => PIL.resize img (target_size, target_size)
  end.

(** [create_light_version(dark_img)] *)
Definition create_light_version (dark_img : Image Pixel)
    : Result (Image Pixel) :=
  result ← PIL.new (im_size dark_img) (0, 0, 0, 0);
  for_each (λ y result,
    for_each (λ x result,
      '(r, g, b, a) ← PIL.getpixel dark_img (x, y);
      if decide (a > 0) then PIL.putpixel result (x, y) (255, 255, 255, a)
      else Ok result)
    (range (im_size dark_img).1) result)
  (range (im_size dark_img).2) result.

End TraceLogo.

(** ** create_dock_logo_v2.py, the icon *)

Section DockIcon.
Context {M : MathModule} {P : Pillow}.

(** An image together with the [ImageDraw] opened on it. *)
Record Canvas := {
  cv_image : Image Pixel;
  cv_draw : ImageDraw
}.

(** The pixel buffer the two share, after all the calls made so far. *)
Definition canvas_pixels (c : Canvas) : Image Pixel :=
  foldl PIL.rasterize (cv_image c) (cv_draw c).

(** [draw_git_tag_diamond(draw, cx, cy, size, color, inner_color)] *)
Definition draw_git_tag_diamond (draw : ImageDraw) (cx cy size : Qc)
    (color inner_color : Color) : ImageDraw :=
  let half := size / 2 in
  let points := [(cx, cy - half); (cx + half, cy); (cx, cy + half);
                 (cx - half, cy)] in
  let draw := draw_polygon draw points color in
  let inner_half := half * Q2Qc 0.72 in
  let inner_points := [(cx, cy - inner_half); (cx + inner_half, cy);
                       (cx, cy + inner_half); (cx - inner_half, cy)] in
  let draw := draw_polygon draw inner_points inner_color in
  let line_w := py_max 2 (size * Q2Qc 0.09) in
  let dot_r := size * Q2Qc 0.07 in
  let main_len := inner_half * Q2Qc 0.6 in
  let p1 := (cx - main_len * Q2Qc 0.5, cy + main_len * Q2Qc 0.5) in
  let p2 := (cx + main_len * Q2Qc 0.5, cy - main_len * Q2Qc 0.5) in
  let draw := draw_line draw p1 p2 color (py_int line_w) in
  let branch_start := (cx - main_len * Q2Qc 0.1, cy + main_len * Q2Qc 0.1) in
  let branch_end := (cx + main_len * Q2Qc 0.4, cy + main_len * Q2Qc 0.25) in
  let draw := draw_line draw branch_start branch_end color (py_int line_w) in
  foldl (λ draw p, draw_ellipse draw (p.1 - dot_r) (p.2 - dot_r)
                     (p.1 + dot_r) (p.2 + dot_r) color)
        draw [p1; p2; branch_end].

Definition icon_branch_data : gmap Z BranchParams :=
  {[ 0%Z := {| spread := of_int 28; length_factor := Q2Qc 0.72;
               width_factor := Q2Qc 0.78 |};
     1%Z := {| spread := of_int 35; length_factor := Q2Qc 0.68;
               width_factor := Q2Qc 0.72 |};
     2%Z := {| spread := of_int 42; length_factor := Q2Qc 0.62;
               width_factor := Q2Qc 0.65 |};
     3%Z := {| spread := of_int 48; length_factor := Q2Qc 0.55;
               width_factor := Q2Qc 0.58 |};
     4%Z := {| spread := of_int 55; length_factor := Q2Qc 0.5;
               width_factor := Q2Qc 0.5 |} ]}.

(** [create_grove_dock_icon_v2(size, color, bg_color=None,
    padding_ratio=0.08)] *)
Definition create_grove_dock_icon_v2 (size : Z) (color : Color)
    (bg_color : option Color) (padding_ratio : Qc) : Result Canvas :=
  let transparent := (0, 0, 0, 0)%Z in
  '(img, inner_color) ←
    match bg_color with
    | None => img ← PIL.new (size, size) transparent; Ok (img, transparent)
    | Some bg_color => img ← PIL.new (size, size) bg_color; Ok (img, bg_color)
    end;
  let draw : ImageDraw := [] in
  let padding := py_int (of_int size * padding_ratio) in
  let cx := of_int (size `div` 2) in
  let tree_top := padding in
  let tag_size := of_int size * Q2Qc 0.14 in
  let tag_bottom := of_int (size - padding)%Z in
  let tag_center_y := tag_bottom - tag_size * Q2Qc 0.6 in
  let trunk_bottom_y := tag_center_y - tag_size * Q2Qc 0.6 in
  let trunk_top_y := trunk_bottom_y - of_int size * Q2Qc 0.22 in
  let trunk_width := of_int size * Q2Qc 0.055 in
  let draw := draw_line draw (cx, trunk_bottom_y) (cx, trunk_top_y) color
                (py_int trunk_width) in
  let branch_data := icon_branch_data in
  let main_branch_length := of_int size * Q2Qc 0.18 in
  let main_branch_width := trunk_width * Q2Qc 0.9 in
  let trunk_top := (cx, trunk_top_y) in
  let draw := draw_organic_branch draw trunk_top (of_int (-22))
                main_branch_length main_branch_width 0 4 color branch_data in
  let draw := draw_organic_branch draw trunk_top (of_int 22)
                main_branch_length main_branch_width 0 4 color branch_data in
  let tag_cx := cx - of_int size * Q2Qc 0.06 in
  let conn_top := (cx, trunk_bottom_y) in
  let conn_bottom := (tag_cx, tag_center_y - tag_size * Q2Qc 0.5) in
  let conn_width := py_max 2 (trunk_width * Q2Qc 0.5) in
  let draw := draw_line draw conn_top conn_bottom color (py_int conn_width) in
  let draw := draw_git_tag_diamond draw tag_cx tag_center_y tag_size color
                inner_color in
  Ok {| cv_image := img; cv_draw := draw |}.

(** [create_supersampled_v2(target_size, color, bg_color=None,
    supersample=4)] *)
Definition create_supersampled_v2 (target_size : Z) (color : Color)
    (bg_color : option Color) (supersample : Z) : Result (Image Pixel) :=
  let large_size := (target_size * supersample)%Z in
  large_img ← create_grove_dock_icon_v2 large_size color bg_color (Q2Qc 0.08);
  PIL.resize (canvas_pixels large_img) (target_size, target_size).

End DockIcon.

(** ** create_dock_logo.py, the icon *)

Module DockLogo.
Section DockLogo.
Context {M : MathModule} {P : Pillow}.

(** [draw_git_tag(draw, center_x, center_y, size, color, bg_color=None)];
    [if bg_color:] holds for every colour tuple and fails for [None]. *)
Definition draw_git_tag (draw : ImageDraw) (center_x center_y size : Qc)
    (color : Color) (bg_color : option Color) : ImageDraw :=
  let angle := 45%Z in
  let half_size := size / 2 in
  let corners :=
    (λ i : Z,
       let corner_angle := math_radians (of_int (angle + i * 90)) in
       (center_x + half_size * math_cos corner_angle,
        center_y + half_size * math_sin corner_angle)) <$> range 4 in
  let draw := draw_polygon draw corners color in
  match bg_color with
  | Some bg_color =>
    let inner_size := size * Q2Qc 0.7 in
    let inner_half := inner_size / 2 in
    let inner_corners :=
      (λ i : Z,
         let corner_angle := math_radians (of_int (angle + i * 90)) in
         (center_x + inner_half * math_cos corner_angle,
          center_y + inner_half * math_sin corner_angle)) <$> range 4 in
    let draw := draw_polygon draw inner_corners bg_color in
    let line_length := inner_size * Q2Qc 0.5 in
    let line_start := (center_x - line_length * Q2Qc 0.4,
                       center_y + line_length * Q2Qc 0.4) in
    let line_end := (center_x + line_length * Q2Qc 0.4,
                     center_y - line_length * Q2Qc 0.4) in
    let branch_width := py_max 2 (size * Q2Qc 0.08) in
    let draw := draw_line draw line_start line_end color
                  (py_int branch_width) in
    let branch_start := (center_x, center_y) in
    let branch_end := (center_x + line_length * Q2Qc 0.35,
                       center_y + line_length * Q2Qc 0.1) in
    let draw := draw_line draw branch_start branch_end color
                  (py_int branch_width) in
    let dot_radius := size * Q2Qc 0.06 in
    foldl (λ draw point,
             draw_ellipse draw (point.1 - dot_radius) (point.2 - dot_radius)
               (point.1 + dot_radius) (point.2 + dot_radius) color)
          draw [line_start; line_end; branch_end]
  | None => draw
  end.

(** [create_grove_dock_icon(size, color, bg_color=None, padding_ratio=0.1)] *)
Definition create_grove_dock_icon (size : Z) (color : Color)
    (bg_color : option Color) (padding_ratio : Qc) : Result Canvas :=
  img ← match bg_color with
        | None => PIL.new (size, size) (0, 0, 0, 0)%Z
        | Some bg_color => PIL.new (size, size) bg_color
        end;
  let draw : ImageDraw := [] in
  let padding := py_int (of_int size * padding_ratio) in
  let cx := of_int (size `div` 2) in
  let tree_top := of_int padding in
  let tree_bottom := of_int (size - padding) - of_int size * Q2Qc 0.12 in
  let trunk_length := (tree_bottom - tree_top) * Q2Qc 0.25 in
  let trunk_width := of_int size * Q2Qc 0.06 in
  let trunk_base := (cx, tree_bottom) in
  let trunk_top := (cx, tree_bottom - trunk_length) in
  let draw := draw_line draw trunk_base trunk_top color (py_int trunk_width) in
  let branch_length := trunk_length * Q2Qc 1.2 in
  let branch_width := trunk_width * Q2Qc 0.85 in
  let draw := draw_branch draw trunk_top (of_int (-25)) branch_length
                branch_width 0 4 color in
  let draw := draw_branch draw trunk_top (of_int 25) branch_length
                branch_width 0 4 color in
  let tag_size := of_int size * Q2Qc 0.18 in
  let tag_center_y := tree_bottom + of_int size * Q2Qc 0.08 in
  let tag_center_x := cx - of_int size * Q2Qc 0.08 in
  let draw := draw_git_tag draw tag_center_x tag_center_y tag_size color
                (Some match bg_color with
                      | Some bg_color => bg_color
                      | None => (0, 0, 0, 0)%Z
                      end) in
  let conn_width := py_max 2 (trunk_width * Q2Qc 0.4) in
  let draw := draw_line draw (cx, tree_bottom)
                (tag_center_x, tag_center_y - tag_size * Q2Qc 0.5) color
                (py_int conn_width) in
  Ok {| cv_image := img; cv_draw := draw |}.

(** [create_supersampled(target_size, color, bg_color=None, supersample=4)] *)
Definition create_supersampled (target_size : Z) (color : Color)
    (bg_color : option Color) (supersample : Z) : Result (Image Pixel) :=
  let large_size := (target_size * supersample)%Z in
  large_img ← create_grove_dock_icon large_size color bg_color (Q2Qc 0.1);
  PIL.resize (canvas_pixels large_img) (target_size, target_size).

End DockLogo.
End DockLogo.

(** ** create_crisp_menubar.py *)

Module CrispMenubar.
Section CrispMenubar.
Context {P : Pillow}.

(** [create_simple_tree(size, color, padding_ratio=0.12)] *)
Definition create_simple_tree (size : Z) (color : Color) (padding_ratio : Qc)
    : Result Canvas :=
  img ← PIL.new (size, size) (0, 0, 0, 0)%Z;
  let draw : ImageDraw := [] in
  let padding := py_int (of_int size * padding_ratio) in
  let cx := of_int (size `div` 2) in
  let base_y := of_int (size - padding) in
  let top_y := of_int padding in
  let trunk_width := py_max 2 (of_int size * Q2Qc 0.12) in
  let trunk_height := (base_y - top_y) * Q2Qc 0.38 in
  let trunk_top := base_y - trunk_height in
  let draw := draw_line draw (cx, base_y) (cx, trunk_top) color
                (py_int trunk_width) in
  let crown_center_y := trunk_top - (base_y - top_y) * Q2Qc 0.28 in
  let crown_radius := (base_y - top_y) * Q2Qc 0.32 in
  let draw := draw_ellipse draw (cx - crown_radius)
                (crown_center_y - crown_radius) (cx + crown_radius)
                (crown_center_y + crown_radius) color in
  Ok {| cv_image := img; cv_draw := draw |}.

(** [create_supersampled(target_size, color, supersample=4)] *)
Definition create_supersampled (target_size : Z) (color : Color)
    (supersample : Z) : Result (Image Pixel) :=
  let large_size := (target_size * supersample)%Z in
  large_img ← create_simple_tree large_size color (Q2Qc 0.12);
  PIL.resize (canvas_pixels large_img) (target_size, target_size).

End CrispMenubar.
End CrispMenubar.

(** ** trace_logo.py, one round of [main] *)

Section TraceMain.
Context {P : Pillow}.

(** The two images [main] computes for one entry of [sizes] (the loop over
    [sizes], the files written and the messages printed are left out):
    [dark = clean_and_resize(traced, size, padding=0.08)] and
    [light = create_light_version(dark)]. *)
Definition traced_pair (traced : Image Pixel) (size : Z)
    : Result (Image Pixel * Image Pixel) :=
  dark ← clean_and_resize traced size (Q2Qc 0.08);
  light ← create_light_version dark;
  Ok (dark, light).

End TraceMain.

(** ** Vocabulary of the properties *)

Section Vocabulary.
Local Open Scope Z_scope.

(** The loop of both tracing functions: every pixel of [src] is read, and
    where [f] yields a value it is stored at the same place in [res]. *)
Definition remap {A B} (f : A → option B) (src : Image A) (res : Image B)
    (l : list (Z * Z)) : Image B :=
  {| im_size := im_size res;
     im_px := map_imap (λ xy old,
                Some (if decide (xy ∈ l)
                      then default old (im_px src !! xy ≫= f)
                      else old)) (im_px res) |}.

(** What [create_light_version] stores for one input pixel, if anything. *)
Definition light_pixel (p : Pixel) : option Pixel :=
  if decide (alpha p > 0) then Some (255, 255, 255, alpha p) else None.

(** What [trace_reference] stores for one pixel of [binary]. *)
Definition logo_pixel (p : Z) : option Pixel :=
  if decide (p = 255) then Some (0, 0, 0, 255) else None.

Definition blank (size : Z * Z) : Image Pixel :=
  {| im_size := size; im_px := PIL.tabulate size (λ _, (0, 0, 0, 0)) |}.

(** What the scan has established after the pixels [cs]: nothing with data
    so far, or a box that contains every pixel with data and touches one on
    each of its four sides. *)
Definition bbox_inv (d : Z * Z → bool) (cs : list (Z * Z))
    (bbox : option (Z * Z * Z * Z)) : Prop :=
  match bbox with
  | None => ∀ c, c ∈ cs → d c = false
  | Some (l, u, r, b) =>
    (∀ c, c ∈ cs → d c = true → l ≤ c.1 < r ∧ u ≤ c.2 < b) ∧
    (∃ c, c ∈ cs ∧ d c = true ∧ c.1 = l) ∧
    (∃ c, c ∈ cs ∧ d c = true ∧ c.2 = u) ∧
    (∃ c, c ∈ cs ∧ d c = true ∧ c.1 = r - 1) ∧
    (∃ c, c ∈ cs ∧ d c = true ∧ c.2 = b - 1)
  end.

(** Every pixel of the image has alpha 0. *)
Definition fully_transparent (img : Image Pixel) : Prop :=
  ∀ xy p, im_px img !! xy = Some p → alpha p = 0.

(** Executable checks of the image predicates, for concrete images. *)
Definition check_well_formed {A} (img : Image A) : bool :=
  bool_decide ((0 ≤ (im_size img).1 ∧ 0 ≤ (im_size img).2) ∧
               dom (im_px img) = list_to_set (PIL.coords (im_size img))).

Definition check_bytes (img : Image Pixel) : bool :=
  bool_decide (map_Forall (λ _ p, byte (red p) ∧ byte (green p) ∧
                                  byte (blue p) ∧ byte (alpha p))
                          (im_px img)).

Definition check_transparent (img : Image Pixel) : bool :=
  bool_decide (map_Forall (λ _ p, bool_decide (alpha p = 0)) (im_px img)).

Definition black : Color := (0, 0, 0, 255)%Z.

(** A pixel of four 8-bit channels. *)
Definition byte_pixel (p : Pixel) : Prop :=
  byte (red p) ∧ byte (green p) ∧ byte (blue p) ∧ byte (alpha p).

End Vocabulary.

(** The guard of [draw_organic_branch] on length and width stays open for
    [n] levels from [depth] on: what decides whether its tree is complete. *)
Fixpoint sustained (branch_data : gmap Z BranchParams) (n : nat)
    (length width : Qc) (depth : Z) : Prop :=
  match n with
  | O => True
  | S n =>
    ¬ (length < of_int 3 ∨ width < 1) ∧
    let params := default default_params (branch_data !! depth) in
    sustained branch_data n (length * length_factor params)
      (width * width_factor params) (depth + 1)
  end.

(** The same chain of decayed lengths and widths, held against other
    thresholds than the guard's own 3 and 1. *)
Fixpoint clears (branch_data : gmap Z BranchParams) (n : nat)
    (min_length min_width length width : Qc) (depth : Z) : Prop :=
  match n with
  | O => True
  | S n =>
    min_length ≤ length ∧ min_width ≤ width ∧
    let params := default default_params (branch_data !! depth) in
    clears branch_data n min_length min_width (length * length_factor params)
      (width * width_factor params) (depth + 1)
  end.

(** The distance kept from a guard's threshold where a decayed length or
    width is compared with it: one part in 10^9 on either side, far more
    than the products of floats differ from the exact ones. *)
Definition margin : Qc := Q2Qc (1 # 1000000000).

(** An instance of the Pillow tables, for evaluation: Rec. 601 luma, the
    8-bit blend, a nearest-sample filter with unit weight in the fixed point
    of the resampler, strokes one pixel wide at their start point. *)
Definition nearest_pillow : Pillow := {|
  luma p := ((red p * 19595 + green p * 38470 + blue p * 7471 + 32768) ≫ 16)%Z;
  blend mask dst src :=
    (let t := dst * (255 - mask) + src * mask + 128 in ((t ≫ 8) + t) ≫ 8)%Z;
  taps insize outsize x := [((x * insize) `div` outsize, 1 ≪ 22)%Z];
  covers op _ xy :=
    match op with
    | DLine start _ _ _ => bool_decide (xy = (py_int start.1, py_int start.2))
    | _ => false
    end
|}.

(** The branch table of the worked example:
    [{0: {'spread': 30, 'length_factor': 0.6, 'width_factor': 0.7}}]. *)
Definition scenario_table : gmap Z BranchParams :=
  {[ 0%Z := {| spread := of_int 30; length_factor := Q2Qc 0.6;
               width_factor := Q2Qc 0.7 |} ]}.

(** Images for the worked examples: a 4 x 3 trace with two pixels of
    content, the same trace in other colours, a 16 x 16 image whose only
    content is at (5, 5) and (10, 12), and a 3 x 2 image without content. *)
Definition tiny_logo : Image Pixel :=
  {| im_size := (4, 3)%Z;
     im_px := <[(1, 1)%Z := (0, 0, 0, 255)%Z]>
                (<[(2, 1)%Z := (9, 9, 9, 77)%Z]>
                   (PIL.tabulate (4, 3)%Z (λ _, (0, 0, 0, 0)%Z))) |}.

Definition tinted_logo : Image Pixel :=
  {| im_size := (4, 3)%Z;
     im_px := <[(1, 1)%Z := (200, 10, 10, 255)%Z]>
                (<[(2, 1)%Z := (0, 80, 0, 77)%Z]>
                   (PIL.tabulate (4, 3)%Z (λ _, (1, 2, 3, 0)%Z))) |}.

Definition two_pixels : Image Pixel :=
  {| im_size := (16, 16)%Z;
     im_px := <[(5, 5)%Z := (0, 0, 0, 255)%Z]>
                (<[(10, 12)%Z := (0, 0, 0, 255)%Z]>
                   (PIL.tabulate (16, 16)%Z (λ _, (0, 0, 0, 0)%Z))) |}.

Definition clear_image : Image Pixel :=
  {| im_size := (3, 2)%Z;
     im_px := PIL.tabulate (3, 2)%Z (λ _, (7, 7, 7, 0)%Z) |}.

(** * Properties *)

(** Equality of closed rationals, by evaluation. *)
Ltac qc := apply Qc_is_canon; vm_compute; reflexivity.

(** Linear arithmetic on [Qc], through [Q]. *)
Ltac qc_to_q :=
  unfold Qcle, Qclt, Qcminus, Qcdiv, of_int in *; simpl in *;
  repeat match goal with
         | H : context [Qred _] |- _ => rewrite Qred_correct in H
         end;
  rewrite ?Qred_correct; unfold inject_Z in *.

(** A guard over closed numbers that does not hold. *)
Ltac guard_open :=
  rewrite decide_False
    by (intros [?|[?|?]];
        match goal with H : _ |- _ => vm_compute in H; discriminate H end).

(** ** The branch synthesizers *)

Section BranchFacts.
Context {M : MathModule}.

Lemma draw_branch_eq draw start angle length width depth max_depth color :
  draw_branch draw start angle length width depth max_depth color =
  if decide ((depth > max_depth)%Z ∨ length < of_int 2) then draw
  else
    let c := Build_Call start angle length width depth in
    let spread := (35 + depth * 5)%Z in
    let draw := draw ++ segment_ops (width / 2) color c in
    let draw := draw_branch draw (call_end c) (angle - of_int spread)
                  (length * Q2Qc 0.65) (width * Q2Qc 0.7) (depth + 1)
                  max_depth color in
    draw_branch draw (call_end c) (angle + of_int spread)
      (length * Q2Qc 0.65) (width * Q2Qc 0.7) (depth + 1) max_depth color.
Proof.
  rewrite draw_branch_equation_1.
  destruct (decide _) as [|Hgo]; [done|]. cbn zeta.
  unfold draw_branch_unfold_clause_1, draw_ellipse, draw_line, segment_ops,
    call_end; cbn [c_start c_angle c_length c_width c_depth].
  by rewrite <- !(assoc_L (++)).
Qed.

Lemma draw_organic_branch_eq draw start angle length width depth
    max_depth color branch_data :
  draw_organic_branch draw start angle length width depth max_depth color
    branch_data =
  if decide ((depth > max_depth)%Z ∨ length < of_int 3 ∨ width < 1) then draw
  else
    let c := Build_Call start angle length width depth in
    let params := default default_params (branch_data !! depth) in
    let draw := draw ++ segment_ops (width / Q2Qc 2.2) color c in
    let draw := draw_organic_branch draw (call_end c)
                  (angle - (spread params + of_int (depth * 3)))
                  (length * length_factor params)
                  (width * width_factor params) (depth + 1) max_depth color
                  branch_data in
    draw_organic_branch draw (call_end c)
      (angle + (spread params + of_int (depth * 2)))
      (length * length_factor params) (width * width_factor params)
      (depth + 1) max_depth color branch_data.
Proof.
  rewrite draw_organic_branch_equation_1.
  destruct (decide _) as [|Hgo]; [done|]. cbn zeta.
  unfold draw_organic_branch_unfold_clause_1, draw_ellipse, draw_line,
    segment_ops, call_end; cbn [c_start c_angle c_length c_width c_depth].
  by rewrite <- !(assoc_L (++)).
Qed.

Lemma branch_visits_eq start angle length width depth max_depth :
  branch_visits start angle length width depth max_depth =
  let c := Build_Call start angle length width depth in
  if decide ((depth > max_depth)%Z ∨ length < of_int 2) then [Returned c]
  else
    let spread := (35 + depth * 5)%Z in
    Drew c
      :: branch_visits (call_end c) (angle - of_int spread)
           (length * Q2Qc 0.65) (width * Q2Qc 0.7) (depth + 1) max_depth
      ++ branch_visits (call_end c) (angle + of_int spread)
           (length * Q2Qc 0.65) (width * Q2Qc 0.7) (depth + 1) max_depth.
Proof.
  rewrite branch_visits_equation_1. by destruct (decide _).
Qed.

Lemma organic_visits_eq start angle length width depth max_depth
    branch_data :
  organic_visits start angle length width depth max_depth branch_data =
  let c := Build_Call start angle length width depth in
  if decide ((depth > max_depth)%Z ∨ length < of_int 3 ∨ width < 1)
  then [Returned c]
  else
    let params := default default_params (branch_data !! depth) in
    Drew c
      :: organic_visits (call_end c)
           (angle - (spread params + of_int (depth * 3)))
           (length * length_factor params) (width * width_factor params)
           (depth + 1) max_depth branch_data
      ++ organic_visits (call_end c)
           (angle + (spread params + of_int (depth * 2)))
           (length * length_factor params) (width * width_factor params)
           (depth + 1) max_depth branch_data.
Proof.
  rewrite organic_visits_equation_1. by destruct (decide _).
Qed.

(** The drawing calls of a run are those of its [Drew] visits, in order. *)
Lemma draw_branch_visits draw start angle length width depth max_depth color :
  draw_branch draw start angle length width depth max_depth color =
  draw ++ (branch_visits start angle length width depth max_depth
             ≫= visit_ops branch_cap color).
Proof.
  remember (Z.to_nat (max_depth + 1 - depth)) as n eqn:Hn.
  revert draw start angle length width depth Hn.
  induction n as [|n IH]; intros draw start angle length width depth Hn;
    rewrite draw_branch_eq, branch_visits_eq; cbn zeta;
    destruct (decide _) as [Hstop|Hgo].
  - simpl. by rewrite app_nil_r.
  - destruct Hgo. left. lia.
  - simpl. by rewrite app_nil_r.
  - rewrite bind_cons, bind_app, !IH by lia.
    cbn [visit_ops]. unfold branch_cap at 3. cbn [c_width].
    by rewrite <- !(assoc_L (++)).
Qed.

Lemma draw_organic_branch_visits draw start angle length width depth
    max_depth color branch_data :
  draw_organic_branch draw start angle length width depth max_depth color
    branch_data =
  draw ++ (organic_visits start angle length width depth max_depth branch_data
             ≫= visit_ops organic_cap color).
Proof.
  remember (Z.to_nat (max_depth + 1 - depth)) as n eqn:Hn.
  revert draw start angle length width depth Hn.
  induction n as [|n IH]; intros draw start angle length width depth Hn;
    rewrite draw_organic_branch_eq, organic_visits_eq; cbn zeta;
    destruct (decide _) as [Hstop|Hgo].
  - simpl. by rewrite app_nil_r.
  - destruct Hgo. left. lia.
  - simpl. by rewrite app_nil_r.
  - rewrite bind_cons, bind_app, !IH by lia.
    cbn [visit_ops]. unfold organic_cap at 3. cbn [c_width].
    by rewrite <- !(assoc_L (++)).
Qed.

(** Induction on the number of levels left below the current depth. *)
Ltac levels_induction depth max_depth :=
  let n := fresh "n" in
  let Hn := fresh "Hn" in
  let IH := fresh "IH" in
  remember (Z.to_nat (max_depth + 1 - depth)) as n eqn:Hn;
  revert depth Hn;
  repeat match goal with
         | x : Qc |- _ => revert x
         | x : Point |- _ => revert x
         end;
  induction n as [|n IH]; intros.

Lemma segments_app d1 d2 : segments (d1 ++ d2) = (segments d1 + segments d2)%nat.
Proof. unfold segments. by rewrite filter_app, length_app. Qed.

Lemma segments_visits cap color vs :
  segments (vs ≫= visit_ops cap color) = length (filter drew vs).
Proof.
  induction vs as [|[c|c] vs IH]; [done| |].
  - rewrite bind_cons, segments_app, IH, filter_cons_True by done. done.
  - rewrite bind_cons, segments_app, IH, filter_cons_False by (by intros []).
    done.
Qed.

Lemma branch_visits_depth start angle length width depth max_depth v :
  v ∈ branch_visits start angle length width depth max_depth →
  (depth ≤ c_depth (visit_call v))%Z ∧
  (drew v → c_depth (visit_call v) ≤ max_depth)%Z.
Proof.
  revert v. levels_induction depth max_depth;
    rewrite branch_visits_eq in H; cbn zeta in H;
    destruct (decide _) as [Hstop|Hgo].
  - apply list_elem_of_singleton in H as ->. by split; [|intros []].
  - destruct Hgo. left. lia.
  - apply list_elem_of_singleton in H as ->. by split; [|intros []].
  - assert (depth ≤ max_depth)%Z by (destruct (decide (depth ≤ max_depth)%Z);
      [done|destruct Hgo; left; lia]).
    apply elem_of_cons in H as [->|H]; [by split|].
    apply elem_of_app in H as [H|H]; apply IH in H as [? ?]; try lia;
      (split; [lia|done]).
Qed.

Lemma organic_visits_depth start angle length width depth max_depth
    branch_data v :
  v ∈ organic_visits start angle length width depth max_depth branch_data →
  (depth ≤ c_depth (visit_call v))%Z ∧
  (drew v → c_depth (visit_call v) ≤ max_depth)%Z.
Proof.
  revert v. levels_induction depth max_depth;
    rewrite organic_visits_eq in H; cbn zeta in H;
    destruct (decide _) as [Hstop|Hgo].
  - apply list_elem_of_singleton in H as ->. by split; [|intros []].
  - destruct Hgo. left. lia.
  - apply list_elem_of_singleton in H as ->. by split; [|intros []].
  - assert (depth ≤ max_depth)%Z by (destruct (decide (depth ≤ max_depth)%Z);
      [done|destruct Hgo; left; lia]).
    apply elem_of_cons in H as [->|H]; [by split|].
    apply elem_of_app in H as [H|H]; apply IH in H as [? ?]; try lia;
      (split; [lia|done]).
Qed.

(** With [n] levels left, at most [2^n - 1] invocations draw and at most
    [2^(n+1) - 1] are made. *)
Lemma branch_visits_count start angle length width depth max_depth :
  let vs := branch_visits start angle length width depth max_depth in
  let n := Z.to_nat (max_depth + 1 - depth) in
  (List.length (filter drew vs) + 1 ≤ 2 ^ n ∧
   List.length vs + 1 ≤ 2 ^ (n + 1))%nat.
Proof.
  cbn zeta. levels_induction depth max_depth;
    rewrite branch_visits_eq; cbn zeta; destruct (decide _) as [Hstop|Hgo].
  - simpl. lia.
  - destruct Hgo. left. lia.
  - rewrite filter_cons_False, filter_nil by (by intros []).
    pose proof (Nat.pow_nonzero 2 (S n)). cbn [List.length].
    rewrite Nat.pow_add_r. simpl (2 ^ 1)%nat. lia.
  - match goal with
    | |- context [branch_visits ?s ?a ?l ?w ?d ?m ++
                  branch_visits ?s' ?a' ?l' ?w' ?d' ?m'] =>
      destruct (IH s a l w d) as [? ?]; [lia|];
      destruct (IH s' a' l' w' d') as [? ?]; [lia|]
    end.
    rewrite filter_cons_True, filter_app by done.
    cbn [List.length]. rewrite !length_app.
    rewrite Nat.pow_add_r in *. simpl (2 ^ 1)%nat in *.
    rewrite Nat.pow_succ_r'. lia.
Qed.

Lemma organic_visits_count start angle length width depth max_depth
    branch_data :
  let vs := organic_visits start angle length width depth max_depth
              branch_data in
  let n := Z.to_nat (max_depth + 1 - depth) in
  (List.length (filter drew vs) + 1 ≤ 2 ^ n ∧
   List.length vs + 1 ≤ 2 ^ (n + 1))%nat.
Proof.
  cbn zeta. levels_induction depth max_depth;
    rewrite organic_visits_eq; cbn zeta; destruct (decide _) as [Hstop|Hgo].
  - simpl. lia.
  - destruct Hgo. left. lia.
  - rewrite filter_cons_False, filter_nil by (by intros []).
    pose proof (Nat.pow_nonzero 2 (S n)). cbn [List.length].
    rewrite Nat.pow_add_r. simpl (2 ^ 1)%nat. lia.
  - match goal with
    | |- context [organic_visits ?s ?a ?l ?w ?d ?m ?b ++
                  organic_visits ?s' ?a' ?l' ?w' ?d' ?m' ?b'] =>
      destruct (IH s a l w d) as [? ?]; [lia|];
      destruct (IH s' a' l' w' d') as [? ?]; [lia|]
    end.
    rewrite filter_cons_True, filter_app by done.
    cbn [List.length]. rewrite !length_app.
    rewrite Nat.pow_add_r in *. simpl (2 ^ 1)%nat in *.
    rewrite Nat.pow_succ_r'. lia.
Qed.

(** C1. The worked example of [draw_organic_branch]: start (100, 200),
    angle 0, length 50, width 10, depth 0, max_depth 1 and the table
    [{0: {spread 30, length_factor 0.6, width_factor 0.7}}], for a [math]
    module with sin 0 = 0 and cos 0 = 1.  The run makes seven invocations.
    The first draws the segment from (100, 200) to (100, 150); its two
    children start at (100, 150) with angles -30 and +30, length 30 and
    width 7, and each draws its segment; the four invocations at depth 2
    return at once without drawing.  Three segments are drawn in all. *)
Theorem C1_concrete_scenario (color : Color) :
  math_sin (math_radians 0) = 0 →
  math_cos (math_radians 0) = 1 →
  let start := (of_int 100, of_int 200) in
  let tip := (of_int 100, of_int 150) in
  let parent := Build_Call start 0 (of_int 50) (of_int 10) 0 in
  let left := Build_Call tip (of_int (-30)) (of_int 30) (of_int 7) 1 in
  let right := Build_Call tip (of_int 30) (of_int 30) (of_int 7) 1 in
  let grandchild from angle :=
    Build_Call (call_end from) (of_int angle) (of_int 18) (Q2Qc 4.9) 2 in
  let drawn :=
    draw_organic_branch [] start 0 (of_int 50) (of_int 10) 0 1 color
      scenario_table in
  call_end parent = tip ∧
  organic_visits start 0 (of_int 50) (of_int 10) 0 1 scenario_table =
    [ Drew parent;
      Drew left;
      Returned (grandchild left (-73)%Z); Returned (grandchild left 12%Z);
      Drew right;
      Returned (grandchild right (-13)%Z); Returned (grandchild right 72%Z) ] ∧
  drawn =
    [ DLine start tip color 10;
      DEllipse (tip.1 - of_int 10 / Q2Qc 2.2) (tip.2 - of_int 10 / Q2Qc 2.2)
               (tip.1 + of_int 10 / Q2Qc 2.2) (tip.2 + of_int 10 / Q2Qc 2.2)
               color ]
    ++ segment_ops (of_int 7 / Q2Qc 2.2) color left
    ++ segment_ops (of_int 7 / Q2Qc 2.2) color right ∧
  (∀ draw start angle length width,
     draw_organic_branch draw start angle length width 2 1 color
       scenario_table = draw) ∧
  List.length
    (organic_visits start 0 (of_int 50) (of_int 10) 0 1 scenario_table)
  = 7%nat ∧
  segments drawn = 3%nat.
Proof.
  intros Hsin Hcos. cbn zeta.
  assert (Hp : call_end (Build_Call (of_int 100, of_int 200) 0 (of_int 50)
                           (of_int 10) 0) = (of_int 100, of_int 150)).
  { unfold call_end. cbn [c_start c_angle c_length fst snd].
    rewrite Hsin, Hcos. f_equal; qc. }
  split; [exact Hp|].
  assert (Hl0 : default default_params (scenario_table !! 0%Z) =
                {| spread := of_int 30; length_factor := Q2Qc 0.6;
                   width_factor := Q2Qc 0.7 |}) by done.
  assert (Hl1 : default default_params (scenario_table !! 1%Z) =
                default_params) by done.
  match goal with |- ?V ∧ _ => assert (Hv : V) end.
  { rewrite organic_visits_eq. cbn zeta. guard_open. rewrite Hp, Hl0.
    cbn [spread length_factor width_factor].
    replace (Q2Qc 0 - (of_int 30 + of_int (0 * 3))) with (of_int (-30)) by qc.
    replace (Q2Qc 0 + (of_int 30 + of_int (0 * 2))) with (of_int 30) by qc.
    replace (of_int 50 * Q2Qc 0.6) with (of_int 30) by qc.
    replace (of_int 10 * Q2Qc 0.7) with (of_int 7) by qc.
    change (0 + 1)%Z with 1%Z.
    rewrite !(organic_visits_eq (of_int 100, of_int 150)). cbn zeta.
    do 2 guard_open. rewrite Hl1.
    unfold default_params; cbn [spread length_factor width_factor].
    rewrite !(organic_visits_eq (call_end _)). cbn zeta.
    rewrite !decide_True by (left; lia).
    cbn [app]. repeat f_equal; qc. }
  split; [exact Hv|].
  assert (Hd : draw_organic_branch [] (of_int 100, of_int 200) 0 (of_int 50)
                 (of_int 10) 0 1 color scenario_table =
               segment_ops (of_int 10 / Q2Qc 2.2) color
                 (Build_Call (of_int 100, of_int 200) 0 (of_int 50)
                    (of_int 10) 0)
               ++ segment_ops (of_int 7 / Q2Qc 2.2) color
                    (Build_Call (of_int 100, of_int 150) (of_int (-30))
                       (of_int 30) (of_int 7) 1)
               ++ segment_ops (of_int 7 / Q2Qc 2.2) color
                    (Build_Call (of_int 100, of_int 150) (of_int 30)
                       (of_int 30) (of_int 7) 1)).
  { rewrite draw_organic_branch_visits, Hv. reflexivity. }
  split.
  - rewrite Hd. unfold segment_ops at 1. rewrite Hp.
    cbn [c_start c_width fst snd app].
    replace (py_int (of_int 10)) with 10%Z by done. done.
  - split; [|split].
    + intros. rewrite draw_organic_branch_eq.
      by rewrite decide_True by (left; lia).
    + by rewrite Hv.
    + by rewrite Hd.
Qed.

(** C2. For every [max_depth >= 0] and every branch table (whatever its
    decay factors), a run of either synthesizer started at depth 0 is a
    finite sequence of invocations, at most [2^(max_depth+2) - 1] of them;
    the ones that draw are at depths 0 to [max_depth], and at most
    [2^(max_depth+1) - 1] segments are drawn.  Both functions are total:
    their recursion is well founded on [max_depth + 1 - depth]. *)
Theorem C2_depth_termination (start : Point) (angle length width : Qc)
    (max_depth : Z) (color : Color) (branch_data : gmap Z BranchParams) :
  (0 ≤ max_depth)%Z →
  let organic :=
    organic_visits start angle length width 0 max_depth branch_data in
  let branch := branch_visits start angle length width 0 max_depth in
  let organic_drawn :=
    draw_organic_branch [] start angle length width 0 max_depth color
      branch_data in
  let branch_drawn :=
    draw_branch [] start angle length width 0 max_depth color in
  (organic_drawn = organic ≫= visit_ops organic_cap color ∧
   (∀ c, Drew c ∈ organic → (0 ≤ c_depth c ≤ max_depth)%Z) ∧
   (Z.of_nat (List.length organic) ≤ 2 ^ (max_depth + 2) - 1)%Z ∧
   (Z.of_nat (segments organic_drawn) ≤ 2 ^ (max_depth + 1) - 1)%Z) ∧
  (branch_drawn = branch ≫= visit_ops branch_cap color ∧
   (∀ c, Drew c ∈ branch → (0 ≤ c_depth c ≤ max_depth)%Z) ∧
   (Z.of_nat (List.length branch) ≤ 2 ^ (max_depth + 2) - 1)%Z ∧
   (Z.of_nat (segments branch_drawn) ≤ 2 ^ (max_depth + 1) - 1)%Z).
Proof.
  intros Hmax. cbn zeta.
  assert (Hpow : ∀ k, (0 ≤ k)%Z →
            Z.of_nat (2 ^ Z.to_nat k) = (2 ^ k)%Z).
  { intros k Hk. rewrite Nat2Z.inj_pow, Z2Nat.id by done. done. }
  split.
  - rewrite draw_organic_branch_visits. cbn [app]. rewrite segments_visits.
    destruct (organic_visits_count start angle length width 0 max_depth
                branch_data) as [Hdrew Hall].
    replace (Z.to_nat (max_depth + 1 - 0) + 1)%nat
      with (Z.to_nat (max_depth + 2)) in Hall by lia.
    replace (max_depth + 1 - 0)%Z with (max_depth + 1)%Z in Hdrew by lia.
    pose proof (Hpow (max_depth + 2)%Z). pose proof (Hpow (max_depth + 1)%Z).
    split; [done|]. split; [|lia].
    intros c Hc. apply organic_visits_depth in Hc as [? Hd].
    split; [done|by apply Hd].
  - rewrite draw_branch_visits. cbn [app]. rewrite segments_visits.
    destruct (branch_visits_count start angle length width 0 max_depth)
      as [Hdrew Hall].
    replace (Z.to_nat (max_depth + 1 - 0) + 1)%nat
      with (Z.to_nat (max_depth + 2)) in Hall by lia.
    replace (max_depth + 1 - 0)%Z with (max_depth + 1)%Z in Hdrew by lia.
    pose proof (Hpow (max_depth + 2)%Z). pose proof (Hpow (max_depth + 1)%Z).
    split; [done|]. split; [|lia].
    intros c Hc. apply branch_visits_depth in Hc as [? Hd].
    split; [done|by apply Hd].
Qed.

Lemma app_self_nil {A} (l k : list A) : l ++ k = l → k = [].
Proof.
  intros H. apply (app_inv_head l). by rewrite app_nil_r.
Qed.

Lemma organic_visits_guard start angle length width depth max_depth
    branch_data c :
  Drew c ∈ organic_visits start angle length width depth max_depth branch_data →
  ¬ (c_length c < of_int 3) ∧ ¬ (c_width c < 1).
Proof.
  levels_induction depth max_depth;
    rewrite organic_visits_eq in H; cbn zeta in H;
    destruct (decide _) as [Hstop|Hgo].
  - by apply list_elem_of_singleton in H.
  - destruct Hgo. left. lia.
  - by apply list_elem_of_singleton in H.
  - apply elem_of_cons in H as [[= ->]|H].
    + simpl. split; intros ?; apply Hgo; auto.
    + apply elem_of_app in H as [H|H]; apply IH in H; try done; lia.
Qed.

Lemma branch_visits_guard start angle length width depth max_depth c :
  Drew c ∈ branch_visits start angle length width depth max_depth →
  ¬ (c_length c < of_int 2).
Proof.
  levels_induction depth max_depth;
    rewrite branch_visits_eq in H; cbn zeta in H;
    destruct (decide _) as [Hstop|Hgo].
  - by apply list_elem_of_singleton in H.
  - destruct Hgo. left. lia.
  - by apply list_elem_of_singleton in H.
  - apply elem_of_cons in H as [[= ->]|H].
    + simpl. intros ?; apply Hgo; auto.
    + apply elem_of_app in H as [H|H]; apply IH in H; try done; lia.
Qed.

(** Widths do not change sign down the tree of [draw_branch]. *)
Lemma branch_visits_width start angle length width depth max_depth c :
  Drew c ∈ branch_visits start angle length width depth max_depth →
  0 ≤ width → 0 ≤ c_width c.
Proof.
  levels_induction depth max_depth;
    rewrite branch_visits_eq in H; cbn zeta in H;
    destruct (decide _) as [Hstop|Hgo].
  - by apply list_elem_of_singleton in H.
  - destruct Hgo. left. lia.
  - by apply list_elem_of_singleton in H.
  - apply elem_of_cons in H as [[= ->]|H]; [done|].
    assert (0 ≤ width * Q2Qc 0.7) by (by apply Qcmult_nonneg_nonneg).
    apply elem_of_app in H as [H|H]; apply IH in H; try done; lia.
Qed.

Lemma cap_box_ordered (x y r : Qc) : 0 ≤ r → x - r ≤ x + r ∧ y - r ≤ y + r.
Proof. intros Hr. split; revert Hr; clear; qc_to_q; intros; lra. Qed.

Lemma quotient_nonneg (w d : Qc) : 0 ≤ w → 0 < d → 0 ≤ w / d.
Proof.
  intros Hw Hd. unfold Qcdiv. apply Qcmult_nonneg_nonneg; [done|].
  apply Qclt_le_weak, Qcinv_pos, Hd.
Qed.

(** Caps of a radius of at least 0 are circles Pillow draws. *)
Lemma visit_ops_ordered cap color vs :
  (∀ c, Drew c ∈ vs → 0 ≤ cap c) →
  Forall ordered_box (vs ≫= visit_ops cap color).
Proof.
  intros Hcap. apply Forall_forall. intros op Hop.
  apply list_elem_of_bind in Hop as (v & Hop & Hv).
  destruct v as [c|c]; [|by apply not_elem_of_nil in Hop].
  unfold visit_ops, segment_ops in Hop.
  apply elem_of_cons in Hop as [->|Hop]; [done|].
  apply list_elem_of_singleton in Hop as ->. simpl.
  apply cap_box_ordered. by apply Hcap.
Qed.

(** C7, as the code has it.  [draw_organic_branch] returns without drawing
    exactly when [depth > max_depth], [length < 3] or [width < 1];
    [draw_branch] returns without drawing exactly when [depth > max_depth]
    or [length < 2], and has no test on the width.  Otherwise
    [draw_organic_branch], and for a width of at least 0 [draw_branch],
    draws its segment with its cap and then recurses twice, left branch
    first.  (With a negative width [draw_branch] gets past its guard as
    well, but the box of its cap is then inverted.) *)
Theorem C7_guards (draw : ImageDraw) (start : Point)
    (angle length width : Qc) (depth max_depth : Z) (color : Color)
    (branch_data : gmap Z BranchParams) :
  let c := Build_Call start angle length width depth in
  let params := default default_params (branch_data !! depth) in
  (draw_organic_branch draw start angle length width depth max_depth color
     branch_data = draw
   ↔ (depth > max_depth)%Z ∨ length < of_int 3 ∨ width < 1) ∧
  (draw_branch draw start angle length width depth max_depth color = draw
   ↔ (depth > max_depth)%Z ∨ length < of_int 2) ∧
  (¬ ((depth > max_depth)%Z ∨ length < of_int 3 ∨ width < 1) →
   draw_organic_branch draw start angle length width depth max_depth color
     branch_data =
   draw_organic_branch
     (draw_organic_branch (draw ++ segment_ops (width / Q2Qc 2.2) color c)
        (call_end c) (angle - (spread params + of_int (depth * 3)))
        (length * length_factor params) (width * width_factor params)
        (depth + 1) max_depth color branch_data)
     (call_end c) (angle + (spread params + of_int (depth * 2)))
     (length * length_factor params) (width * width_factor params)
     (depth + 1) max_depth color branch_data) ∧
  (0 ≤ width → ¬ ((depth > max_depth)%Z ∨ length < of_int 2) →
   draw_branch draw start angle length width depth max_depth color =
   draw_branch
     (draw_branch (draw ++ segment_ops (width / 2) color c)
        (call_end c) (angle - of_int (35 + depth * 5))
        (length * Q2Qc 0.65) (width * Q2Qc 0.7) (depth + 1) max_depth color)
     (call_end c) (angle + of_int (35 + depth * 5))
     (length * Q2Qc 0.65) (width * Q2Qc 0.7) (depth + 1) max_depth color).
Proof.
  cbn zeta. repeat split.
  - intros Heq. destruct (decide ((depth > max_depth)%Z ∨ length < of_int 3
                                   ∨ width < 1)) as [|Hgo]; [done|].
    rewrite draw_organic_branch_visits, organic_visits_eq in Heq.
    cbn zeta in Heq. rewrite decide_False in Heq by done.
    apply app_self_nil in Heq. by rewrite bind_cons in Heq.
  - intros Hstop. rewrite draw_organic_branch_eq. by rewrite decide_True.
  - intros Heq. destruct (decide ((depth > max_depth)%Z ∨ length < of_int 2))
      as [|Hgo]; [done|].
    rewrite draw_branch_visits, branch_visits_eq in Heq.
    cbn zeta in Heq. rewrite decide_False in Heq by done.
    apply app_self_nil in Heq. by rewrite bind_cons in Heq.
  - intros Hstop. rewrite draw_branch_eq. by rewrite decide_True.
  - intros Hgo. rewrite draw_organic_branch_eq at 1. by rewrite decide_False.
  - intros _ Hgo. rewrite draw_branch_eq at 1. by rewrite decide_False.
Qed.

(** C8, as the code has it.  Every invocation that draws issues one line
    from its start to its end point followed by one ellipse centred on the
    end point; the radius of that cap is [width / 2.2] in
    [draw_organic_branch] and, for a stroke width of at least 0,
    [width / 2] in [draw_branch], [width] being the stroke width the
    invocation received.  Under that condition every cap is a box Pillow
    draws; [draw_organic_branch] needs no condition, as its guard lets no
    width below 1 through.  An invocation of [draw_branch] with a negative
    width that draws issues a cap whose box is inverted. *)
Theorem C8_caps (draw : ImageDraw) (start : Point)
    (angle length width : Qc) (depth max_depth : Z) (color : Color)
    (branch_data : gmap Z BranchParams) :
  (0 ≤ width →
   draw_branch draw start angle length width depth max_depth color =
   draw ++ (branch_visits start angle length width depth max_depth
              ≫= visit_ops (λ c, c_width c / 2) color) ∧
   Forall ordered_box
     (branch_visits start angle length width depth max_depth
        ≫= visit_ops (λ c, c_width c / 2) color)) ∧
  (draw_organic_branch draw start angle length width depth max_depth color
     branch_data =
   draw ++ (organic_visits start angle length width depth max_depth branch_data
              ≫= visit_ops (λ c, c_width c / Q2Qc 2.2) color) ∧
   Forall ordered_box
     (organic_visits start angle length width depth max_depth branch_data
        ≫= visit_ops (λ c, c_width c / Q2Qc 2.2) color)) ∧
  (∀ cap c,
     visit_ops cap color (Drew c) =
     [ DLine (c_start c) (call_end c) color (Z.max 1 (py_int (c_width c)));
       DEllipse ((call_end c).1 - cap c) ((call_end c).2 - cap c)
                ((call_end c).1 + cap c) ((call_end c).2 + cap c) color ]) ∧
  ∀ c, c_width c < 0 →
    ¬ Forall ordered_box (visit_ops (λ c, c_width c / 2) color (Drew c)).
Proof.
  split; [|split; [|split; [done|]]]; cycle 2.
  { intros c Hneg Hall. unfold visit_ops, segment_ops in Hall.
    apply Forall_cons in Hall as [_ Hall].
    apply Forall_cons in Hall as [[Hbox _] _].
    assert (Hr : 0 ≤ c_width c / 2).
    { revert Hbox. generalize (c_width c / 2) ((call_end c).1). clear.
      intros r x. qc_to_q. intros. lra. }
    assert (Hw : c_width c = c_width c / 2 * 2) by (field; done).
    rewrite Hw in Hneg. apply Qclt_not_le in Hneg. apply Hneg.
    by apply Qcmult_nonneg_nonneg. }
  - intros Hwidth. split; [apply draw_branch_visits|].
    apply visit_ops_ordered. intros c Hc.
    apply quotient_nonneg; [|done].
    exact (branch_visits_width _ _ _ _ _ _ _ Hc Hwidth).
  - split; [apply draw_organic_branch_visits|].
    apply visit_ops_ordered. intros c Hc.
    destruct (organic_visits_guard _ _ _ _ _ _ _ _ Hc) as [_ Hw].
    apply Qcnot_lt_le in Hw. apply quotient_nonneg; [|done].
    by apply (Qcle_trans _ 1).
Qed.

End BranchFacts.

(** ** Pixel buffers and loops *)

Section ImageFacts.
Context {P : Pillow}.
Local Open Scope Z_scope.

Lemma elem_of_coords size xy : xy ∈ PIL.coords size ↔ in_image size xy.
Proof.
  unfold PIL.coords, in_image. destruct xy as [x y]. rewrite list_elem_of_bind.
  split.
  - intros (y' & Hx & Hy). apply list_elem_of_bind in Hx as (x' & Hxy & Hx).
    apply list_elem_of_singleton in Hxy. inversion Hxy; subst.
    apply elem_of_seqZ in Hx, Hy. simpl. lia.
  - simpl. intros [Hx Hy]. exists y. split; [|apply elem_of_seqZ; lia].
    apply list_elem_of_bind. exists x. split; [by apply list_elem_of_singleton|].
    apply elem_of_seqZ. lia.
Qed.

Lemma lookup_tabulate {A} size (f : Z * Z → A) xy :
  PIL.tabulate size f !! xy =
  if decide (in_image size xy) then Some (f xy) else None.
Proof.
  unfold PIL.tabulate.
  assert (Hgen : ∀ l : list (Z * Z),
            (list_to_map ((λ xy, (xy, f xy)) <$> l) : gmap (Z * Z) A) !! xy =
            if decide (xy ∈ l) then Some (f xy) else None).
  { induction l as [|c l IH].
    - rewrite fmap_nil, list_to_map_nil, lookup_empty.
      by rewrite decide_False by apply not_elem_of_nil.
    - rewrite fmap_cons, list_to_map_cons.
      destruct (decide (c = xy)) as [->|Hne].
      + rewrite lookup_insert_eq. by rewrite decide_True by apply list_elem_of_here.
      + rewrite lookup_insert_ne, IH by done.
        destruct (decide (xy ∈ l)) as [Hin|Hin].
        * by rewrite decide_True by (by apply list_elem_of_further).
        * rewrite decide_False; [done|].
          intros [?|?]%elem_of_cons; by subst. }
  rewrite Hgen. destruct (decide (in_image size xy)) as [Hin|Hin].
  - by rewrite decide_True by (by apply elem_of_coords).
  - by rewrite decide_False by (by rewrite elem_of_coords).
Qed.

Lemma tabulate_ext {A} size (f g : Z * Z → A) :
  (∀ xy, in_image size xy → f xy = g xy) →
  PIL.tabulate size f = PIL.tabulate size g.
Proof.
  intros Hfg. apply map_eq. intros xy. rewrite !lookup_tabulate.
  destruct (decide _); [|done]. by rewrite Hfg.
Qed.

Lemma tabulate_well_formed {A} size (f : Z * Z → A) :
  0 ≤ size.1 → 0 ≤ size.2 →
  well_formed {| im_size := size; im_px := PIL.tabulate size f |}.
Proof.
  intros ??. split; [done|]. intros xy. simpl. rewrite lookup_tabulate.
  destruct (decide _); split; try done; by intros [? ?].
Qed.

Lemma new_ok {A} size (color : A) :
  0 ≤ size.1 → 0 ≤ size.2 →
  PIL.new size color =
  Ok {| im_size := size; im_px := PIL.tabulate size (λ _, color) |}.
Proof.
  intros ??. unfold PIL.new. by rewrite decide_False by lia.
Qed.

(** *** Loops *)

Lemma for_each_app {I S} (body : I → S → Result S) l1 l2 s :
  for_each body (l1 ++ l2) s = (s ← for_each body l1 s; for_each body l2 s).
Proof.
  revert s. induction l1 as [|i l1 IH]; intros s; [done|].
  simpl. destruct (body i s); [apply IH|done].
Qed.

(** Two nested loops are one loop over the pairs of indices. *)
Lemma for_each_nested {S} (body : Z → Z → S → Result S) xs ys s :
  for_each (λ y s, for_each (λ x s, body x y s) xs s) ys s =
  for_each (λ xy s, body xy.1 xy.2 s) (y ← ys; x ← xs; [(x, y)]) s.
Proof.
  revert s. induction ys as [|y ys IH]; intros s; [done|].
  rewrite bind_cons, for_each_app. simpl.
  assert (Hin : ∀ s, for_each (λ x s, body x y s) xs s =
                     for_each (λ xy s, body xy.1 xy.2 s)
                       (x ← xs; [(x, y)]) s).
  { clear. induction xs as [|x xs IHx]; intros s; [done|].
    simpl. destruct (body x y s); [apply IHx|done]. }
  rewrite Hin. destruct (for_each _ (_ ≫= _) s); [apply IH|done].
Qed.

Lemma remap_cons {A B} (f : A → option B) (src : Image A) (res : Image B)
    c l :
  is_Some (im_px res !! c) →
  remap f src
    match im_px src !! c ≫= f with
    | Some v => {| im_size := im_size res; im_px := <[c := v]> (im_px res) |}
    | None => res
    end l =
  remap f src res (c :: l).
Proof.
  intros [old Hold]. unfold remap.
  assert (Hsz : im_size match im_px src !! c ≫= f with
                        | Some v => {| im_size := im_size res;
                                       im_px := <[c := v]> (im_px res) |}
                        | None => res
                        end = im_size res) by (by destruct (_ ≫= _)).
  rewrite Hsz. f_equal. apply map_eq. intros xy. rewrite !map_lookup_imap.
  destruct (decide (xy = c)) as [->|Hne].
  - rewrite Hold. simpl. rewrite (decide_True (P := c ∈ c :: l)) by left.
    destruct (im_px src !! c ≫= f) as [v|] eqn:Hf; simpl.
    + rewrite lookup_insert_eq. simpl. by destruct (decide (c ∈ l)).
    + rewrite Hold. simpl. by destruct (decide (c ∈ l)).
  - assert (Hin : xy ∈ l ↔ xy ∈ c :: l).
    { rewrite elem_of_cons. split; [by right|by intros [?|?]]. }
    assert (Hlk : im_px match im_px src !! c ≫= f with
                        | Some v => {| im_size := im_size res;
                                       im_px := <[c := v]> (im_px res) |}
                        | None => res
                        end !! xy = im_px res !! xy).
    { destruct (_ ≫= _); [|done]. simpl. by rewrite lookup_insert_ne. }
    rewrite Hlk. destruct (im_px res !! xy); [|done]. simpl. f_equal.
    destruct (decide (xy ∈ l)).
    + by rewrite decide_True by (by apply Hin).
    + by rewrite decide_False by (by rewrite <- Hin).
Qed.

Lemma remap_loop {A B} (f : A → option B) (src : Image A)
    (body : Z * Z → Image B → Result (Image B)) l res :
  (∀ xy p r, im_px src !! xy = Some p → im_size r = im_size src →
     body xy r = match f p with
                 | Some v => PIL.putpixel r xy v
                 | None => Ok r
                 end) →
  (∀ xy, xy ∈ l → in_image (im_size src) xy) →
  well_formed src → im_size res = im_size src →
  (∀ xy, in_image (im_size src) xy → is_Some (im_px res !! xy)) →
  for_each body l res = Ok (remap f src res l).
Proof.
  intros Hbody Hl [_ Hsrc]. revert res.
  induction l as [|c l IH]; intros res Hsize Hres.
  - simpl. f_equal. destruct res as [sz px]. unfold remap. simpl. f_equal.
    apply map_eq. intros xy. rewrite map_lookup_imap.
    by destruct (px !! xy).
  - simpl. assert (Hc : in_image (im_size src) c) by (apply Hl; left).
    destruct (proj2 (Hsrc c) Hc) as [p Hp].
    rewrite (Hbody c p res Hp Hsize), <- remap_cons by (by apply Hres).
    rewrite Hp. simpl. unfold PIL.putpixel.
    destruct (f p) as [v|]; simpl.
    + rewrite decide_True by (by rewrite Hsize). simpl.
      apply IH; [intros; apply Hl; by right|done|]. simpl.
      intros xy Hxy. destruct (decide (xy = c)) as [->|].
      * by rewrite lookup_insert_eq.
      * rewrite lookup_insert_ne by done. by apply Hres.
    + apply IH; [intros; apply Hl; by right|done|done].
Qed.

Lemma lookup_remap {A B} (f : A → option B) (src : Image A) (res : Image B)
    l xy :
  im_px (remap f src res l) !! xy =
  (λ old, if decide (xy ∈ l) then default old (im_px src !! xy ≫= f)
          else old) <$> im_px res !! xy.
Proof. unfold remap. simpl. rewrite map_lookup_imap. by destruct (_ !! _). Qed.

(** ** create_light_version and trace_reference *)

Lemma blank_lookup size xy :
  in_image size xy → is_Some (im_px (blank size) !! xy).
Proof.
  intros Hin. simpl. rewrite lookup_tabulate. by rewrite decide_True.
Qed.

Lemma create_light_version_remap dark_img :
  well_formed dark_img →
  create_light_version dark_img =
  Ok (remap light_pixel dark_img (blank (im_size dark_img))
        (PIL.coords (im_size dark_img))).
Proof.
  intros Hwf. pose proof Hwf as [[Hw Hh] Hpx].
  unfold create_light_version. rewrite new_ok by done.
  change (mbind ?f (Ok ?a)) with (f a). cbv beta.
  unfold range. rewrite for_each_nested.
  apply remap_loop; [|by intros ? ?%elem_of_coords|done|done|].
  - intros [x y] [[[r g] b] a] res Hp Hsize. cbn [fst snd]. unfold PIL.getpixel.
    rewrite Hp. change (mbind ?f (Ok ?a)) with (f a). cbv beta.
    unfold light_pixel, alpha. cbn [snd]. by destruct (decide (a > 0)).
  - apply blank_lookup.
Qed.

(** C5. On every well-formed RGBA image [create_light_version] returns an
    image of the same size whose alpha equals the input's at every pixel
    and whose colour is (255, 255, 255) wherever that alpha is positive. *)
Theorem C5_light_preserves_alpha (dark_img : Image Pixel) :
  rgba_image dark_img →
  ∃ light,
    create_light_version dark_img = Ok light ∧
    im_size light = im_size dark_img ∧
    ∀ xy, in_image (im_size dark_img) xy →
      ∃ p q, im_px dark_img !! xy = Some p ∧ im_px light !! xy = Some q ∧
             alpha q = alpha p ∧
             (alpha p > 0 → q = (255, 255, 255, alpha p)).
Proof.
  intros [Hwf Hbytes]. eexists. split; [by apply create_light_version_remap|].
  split; [done|]. intros xy Hin.
  destruct (proj2 (proj2 Hwf xy) Hin) as [p Hp]. exists p.
  rewrite lookup_remap. destruct (blank_lookup _ _ Hin) as [old Hold].
  pose proof Hold as Hold'. simpl in Hold'. rewrite lookup_tabulate in Hold'.
  rewrite decide_True in Hold' by done. injection Hold' as <-.
  rewrite Hold, Hp. simpl. rewrite decide_True by (by apply elem_of_coords).
  eexists. split; [done|]. split; [done|].
  unfold light_pixel. destruct (decide (alpha p > 0)) as [Ha|Ha]; simpl.
  - done.
  - destruct (Hbytes _ _ Hp) as (_ & _ & _ & [Ha0 _]).
    split; [lia|done].
Qed.

(** C10. Two well-formed images of the same size with the same alpha at
    every pixel have the same light version, whatever their colours. *)
Theorem C10_light_depends_on_alpha (img1 img2 : Image Pixel) :
  well_formed img1 → well_formed img2 →
  im_size img1 = im_size img2 →
  (∀ xy, alpha <$> im_px img1 !! xy = alpha <$> im_px img2 !! xy) →
  ∃ light,
    create_light_version img1 = Ok light ∧
    create_light_version img2 = Ok light.
Proof.
  intros Hwf1 Hwf2 Hsize Halpha. eexists.
  split; [by apply create_light_version_remap|].
  rewrite create_light_version_remap, <- Hsize by done. f_equal.
  unfold remap. f_equal. apply map_eq. intros xy. rewrite !map_lookup_imap.
  destruct (im_px (blank (im_size img1)) !! xy) as [old|]; [|done]. simpl.
  f_equal. destruct (decide _); [|done]. f_equal.
  specialize (Halpha xy).
  destruct (im_px img1 !! xy) as [p1|], (im_px img2 !! xy) as [p2|];
    try done. simpl in *. unfold light_pixel. injection Halpha as ->. done.
Qed.

(** C9. On every well-formed reference image [trace_reference] returns,
    and each pixel of the traced image is (0, 0, 0, 0) or (0, 0, 0, 255). *)
Theorem C9_trace_binary (ref : Image Pixel) :
  well_formed ref →
  ∃ result binary,
    trace_reference ref = Ok (result, binary) ∧
    im_size result = ((im_size ref).1 `div` 2, (im_size ref).2) ∧
    (∀ xy, in_image (im_size result) xy → is_Some (im_px result !! xy)) ∧
    (∀ xy p, im_px result !! xy = Some p →
       p = (0, 0, 0, 0) ∨ p = (0, 0, 0, 255)).
Proof.
  intros [[Hw Hh] Hpx]. destruct ref as [[w h] px]. simpl in *.
  unfold trace_reference. cbn [im_size]. unfold PIL.crop.
  assert (0 ≤ w `div` 2) by (apply Z.div_pos; lia).
  rewrite decide_False by lia.
  change (mbind ?f (Ok ?a)) with (f a). cbv beta.
  set (binary := PIL.point _ _).
  assert (Hsz : im_size binary = (w `div` 2 - 0, h - 0)) by done.
  assert (Hbin : well_formed binary).
  { split; [rewrite Hsz; simpl; lia|]. intros xy. rewrite Hsz.
    unfold binary, PIL.point, PIL.convert_L. simpl.
    rewrite !lookup_fmap, lookup_tabulate.
    destruct (decide _); split; try done; by intros [? ?]. }
  clearbody binary.
  rewrite new_ok by (rewrite Hsz; simpl; lia).
  change (mbind ?f (Ok ?a)) with (f a). cbv beta.
  unfold range. rewrite for_each_nested.
  rewrite (remap_loop logo_pixel binary); first last.
  - apply blank_lookup.
  - done.
  - done.
  - by intros ? ?%elem_of_coords.
  - intros [x y] p res Hp Hsize. cbn [fst snd]. unfold PIL.getpixel.
    rewrite Hp. change (mbind ?f (Ok ?a)) with (f a). cbv beta.
    unfold logo_pixel. by destruct (decide (p = 255)).
  - change (mbind ?f (Ok ?a)) with (f a). cbv beta.
    eexists _, _. split; [done|]. split; [simpl; rewrite Hsz; f_equal; lia|].
    split.
    + intros xy Hin. rewrite lookup_remap.
      destruct (blank_lookup (im_size binary) xy Hin) as [old Hold].
      unfold blank in Hold. rewrite Hold. by eexists.
    + intros xy p. rewrite lookup_remap. simpl. rewrite lookup_tabulate.
      destruct (decide (in_image _ xy)); [|done]. simpl.
      destruct (decide _); [|intros [= <-]; by left].
      destruct (im_px binary !! xy) as [v|]; simpl; [|intros [= <-]; by left].
      unfold logo_pixel. destruct (decide _); simpl; intros [= <-]; auto.
Qed.

(** ** getbbox *)

Lemma scan_inv (d : Z * Z → bool) cs :
  bbox_inv d cs
    (foldl (λ bbox xy, if d xy then PIL.grow_bbox bbox xy else bbox) None cs).
Proof.
  induction cs as [|c cs IH] using rev_ind.
  - simpl. by intros c ?%not_elem_of_nil.
  - rewrite foldl_app. simpl.
    destruct (foldl _ None cs) as [[[[l u] r] b]|]; simpl in IH |- *.
    + destruct IH as (Hall & (cl & Hl & Hdl & Hcl) & (cu & Hu & Hdu & Hcu)
                      & (cr & Hr & Hdr & Hcr) & (cb & Hb & Hdb & Hcb)).
      destruct (d c) eqn:Hd; simpl.
      * split.
        { intros c' [Hc'| ->%list_elem_of_singleton]%elem_of_app Hd'; [|lia].
          specialize (Hall c' Hc' Hd'). lia. }
        repeat split.
        -- destruct (Z.min_spec l c.1) as [[? ->]|[? ->]];
             [exists cl|exists c]; rewrite elem_of_app, list_elem_of_singleton;
             auto.
        -- destruct (Z.min_spec u c.2) as [[? ->]|[? ->]];
             [exists cu|exists c]; rewrite elem_of_app, list_elem_of_singleton;
             auto.
        -- destruct (Z.max_spec r (c.1 + 1)) as [[? ->]|[? ->]];
             [exists c|exists cr]; rewrite elem_of_app, list_elem_of_singleton;
             repeat split; auto; lia.
        -- destruct (Z.max_spec b (c.2 + 1)) as [[? ->]|[? ->]];
             [exists c|exists cb]; rewrite elem_of_app, list_elem_of_singleton;
             repeat split; auto; lia.
      * split.
        { intros c' [Hc'| ->%list_elem_of_singleton]%elem_of_app Hd';
            [by apply Hall|congruence]. }
        repeat split; [exists cl|exists cu|exists cr|exists cb];
          rewrite elem_of_app; auto.
    + destruct (d c) eqn:Hd; simpl.
      * split.
        { intros c' [Hc'| ->%list_elem_of_singleton]%elem_of_app Hd'; [|lia].
          rewrite IH in Hd' by done. done. }
        repeat split; exists c; rewrite elem_of_app, list_elem_of_singleton;
          repeat split; auto; lia.
      * intros c' [Hc'| ->%list_elem_of_singleton]%elem_of_app; auto.
Qed.

Lemma getbbox_inv img :
  bbox_inv (PIL.has_data img) (PIL.coords (im_size img)) (PIL.getbbox img).
Proof. apply scan_inv. Qed.

Lemma getbbox_None img :
  (∀ xy, in_image (im_size img) xy → PIL.has_data img xy = false) →
  PIL.getbbox img = None.
Proof.
  intros Hno. pose proof (getbbox_inv img) as Hinv.
  destruct (PIL.getbbox img) as [[[[l u] r] b]|]; [|done].
  destruct Hinv as (_ & (c & Hc & Hd & _) & _).
  apply elem_of_coords in Hc. rewrite Hno in Hd by done. done.
Qed.

(** A box returned by [getbbox] lies inside the image and is not empty. *)
Lemma getbbox_Some img l u r b :
  PIL.getbbox img = Some (l, u, r, b) →
  0 ≤ l < r ∧ r ≤ (im_size img).1 ∧ 0 ≤ u < b ∧ b ≤ (im_size img).2.
Proof.
  intros Hbox. pose proof (getbbox_inv img) as Hinv. rewrite Hbox in Hinv.
  destruct Hinv as (Hall & (cl & Hl & Hdl & Hcl) & (cu & Hu & Hdu & Hcu)
                    & (cr & Hr & Hdr & Hcr) & (cb & Hb & Hdb & Hcb)).
  pose proof (Hall _ Hl Hdl). pose proof (Hall _ Hu Hdu).
  apply elem_of_coords in Hl, Hu, Hr, Hb. unfold in_image in *. lia.
Qed.

(** C3, as the code has it.  For an image whose pixels with content are
    exactly (5, 5) and (10, 12), [getbbox] is (5, 5, 11, 13): the right and
    lower bounds of the box are exclusive. *)
Theorem C3_bounding_box (img : Image Pixel) :
  well_formed img →
  (∀ xy p, im_px img !! xy = Some p →
     (alpha p ≠ 0 ↔ xy = (5, 5) ∨ xy = (10, 12))) →
  in_image (im_size img) (5, 5) →
  in_image (im_size img) (10, 12) →
  PIL.getbbox img = Some (5, 5, 11, 13).
Proof.
  intros [_ Hwf] Hfg H1 H2.
  assert (Hd : ∀ xy, PIL.has_data img xy = true ↔
                     xy = (5, 5) ∨ xy = (10, 12)).
  { intros xy. unfold PIL.has_data.
    destruct (im_px img !! xy) as [p|] eqn:Hp.
    - rewrite bool_decide_eq_true. by apply Hfg.
    - split; [done|]. intros [-> | ->].
      + apply Hwf in H1 as [? ?]. congruence.
      + apply Hwf in H2 as [? ?]. congruence. }
  pose proof (getbbox_inv img) as Hinv.
  destruct (PIL.getbbox img) as [[[[l u] r] b]|].
  - destruct Hinv as (Hall & (cl & _ & Hdl & Hcl) & (cu & _ & Hdu & Hcu)
                      & (cr & _ & Hdr & Hcr) & (cb & _ & Hdb & Hcb)).
    pose proof (Hall (5, 5) (proj2 (elem_of_coords _ _) H1)
                  (proj2 (Hd _) (or_introl eq_refl))) as Ha.
    pose proof (Hall (10, 12) (proj2 (elem_of_coords _ _) H2)
                  (proj2 (Hd _) (or_intror eq_refl))) as Hb.
    simpl in Ha, Hb.
    apply Hd in Hdl, Hdu, Hdr, Hdb.
    assert (El : l = 5) by (destruct Hdl; subst cl; simpl in *; lia).
    assert (Eu : u = 5) by (destruct Hdu; subst cu; simpl in *; lia).
    assert (Er : r = 11) by (destruct Hdr; subst cr; simpl in *; lia).
    assert (Eb : b = 13) by (destruct Hdb; subst cb; simpl in *; lia).
    by rewrite El, Eu, Er, Eb.
  - simpl in Hinv. specialize (Hinv (5, 5) (proj2 (elem_of_coords _ _) H1)).
    rewrite (proj2 (Hd (5, 5)) (or_introl eq_refl)) in Hinv. done.
Qed.

(** ** resize *)

Lemma filtered_alpha_zero (line : Z → option Pixel) ts :
  (∀ i p, line i = Some p → alpha p = 0) →
  PIL.filtered alpha line ts = 0.
Proof.
  intros Hline. unfold PIL.filtered.
  assert (Hsum : ∀ ss, foldl (λ ss t, ss + default 0 (alpha <$> line t.1) * t.2)
                         ss ts = ss).
  { induction ts as [|t ts IH]; intros ss; [done|]. simpl.
    destruct (line t.1) as [p|] eqn:Hp; simpl.
    - rewrite (Hline _ _ Hp). rewrite Z.mul_0_l, Z.add_0_r. apply IH.
    - rewrite Z.mul_0_l, Z.add_0_r. apply IH. }
  rewrite Hsum. reflexivity.
Qed.

Lemma resample_horizontal_transparent img xsize :
  fully_transparent img →
  fully_transparent (PIL.resample_horizontal img xsize).
Proof.
  intros Himg xy p. simpl. rewrite lookup_tabulate.
  destruct (decide _); [|done]. intros [= <-].
  apply filtered_alpha_zero. intros ? ?. apply Himg.
Qed.

Lemma resample_vertical_transparent img ysize :
  fully_transparent img →
  fully_transparent (PIL.resample_vertical img ysize).
Proof.
  intros Himg xy p. simpl. rewrite lookup_tabulate.
  destruct (decide _); [|done]. intros [= <-].
  apply filtered_alpha_zero. intros ? ?. apply Himg.
Qed.

Lemma resample_spec img size :
  im_size (PIL.resample img size) = size ∧
  (fully_transparent img → fully_transparent (PIL.resample img size)) ∧
  (0 ≤ size.1 → 0 ≤ size.2 → well_formed img →
   well_formed (PIL.resample img size)).
Proof.
  destruct size as [xsize ysize], img as [[w h] px]. unfold PIL.resample.
  cbn [fst snd im_size].
  destruct (decide (w = xsize)) as [->|Hx]; cbn [fst snd im_size PIL.resample_horizontal];
    destruct (decide (h = ysize)) as [->|Hy].
  - done.
  - split; [done|]. split; [apply resample_vertical_transparent|].
    intros. by apply tabulate_well_formed.
  - split; [done|]. split; [apply resample_horizontal_transparent|].
    intros. by apply tabulate_well_formed.
  - split; [done|]. split.
    + intros. by apply resample_vertical_transparent,
        resample_horizontal_transparent.
    + intros. by apply tabulate_well_formed.
Qed.

Lemma resize_spec img size :
  1 ≤ size.1 → 1 ≤ size.2 →
  ∃ out,
    PIL.resize img size = Ok out ∧
    im_size out = size ∧
    (fully_transparent img → fully_transparent out) ∧
    (well_formed img → well_formed out).
Proof.
  intros Hx Hy. unfold PIL.resize.
  destruct (decide (im_size img = size)) as [Heq|Hne]; [by exists img|].
  rewrite decide_False by lia. cbv zeta.
  set (pre := {| im_size := im_size img;
                 im_px := PIL.premultiply <$> im_px img |}).
  destruct (resample_spec pre size) as (Hsize & Htr & Hwf).
  eexists. split; [done|]. split; [done|]. split.
  - intros Himg xy p. simpl. rewrite lookup_fmap.
    destruct (im_px (PIL.resample pre size) !! xy) as [q|] eqn:Hq; [|done].
    simpl. intros [= <-].
    assert (Hq0 : alpha q = 0).
    { apply (Htr) in Hq; [done|]. intros xy' p'. unfold pre. simpl.
      rewrite lookup_fmap. destruct (im_px img !! xy') as [p0|] eqn:Hp0; [|done].
      simpl. intros [= <-]. change (alpha p0 = 0). by apply (Himg xy'). }
    unfold PIL.unpremultiply. by rewrite decide_True by (by left).
  - intros [Hnn Himg]. split; [simpl; rewrite Hsize; lia|].
    intros xy. simpl. rewrite lookup_fmap, fmap_is_Some.
    apply Hwf; [lia|lia|]. split; [done|]. intros xy'. unfold pre. simpl.
    rewrite lookup_fmap, fmap_is_Some. apply Himg.
Qed.

(** ** clean_and_resize *)

(** C4. On a fully transparent image, for every positive [target_size]
    and every padding, [clean_and_resize] returns without error a
    well-formed, fully transparent image of [target_size] x [target_size]. *)
Theorem C4_empty_trace (img : Image Pixel) (target_size : Z) (padding : Qc) :
  well_formed img →
  fully_transparent img →
  0 < target_size →
  ∃ out,
    clean_and_resize img target_size padding = Ok out ∧
    im_size out = (target_size, target_size) ∧
    well_formed out ∧
    fully_transparent out.
Proof.
  intros Hwf Htr Hpos. unfold clean_and_resize.
  rewrite getbbox_None.
  - destruct (resize_spec img (target_size, target_size))
      as (out & -> & ? & ? & ?); [simpl; lia..|].
    exists out. auto.
  - intros xy _. unfold PIL.has_data.
    destruct (im_px img !! xy) as [p|] eqn:Hp; [|done].
    apply bool_decide_eq_false. intros Ha. by apply Ha, (Htr xy).
Qed.

Lemma py_int_nonneg (q : Qc) : (0 ≤ q)%Qc → 0 ≤ py_int q.
Proof.
  intros Hq. unfold py_int. apply Z.quot_pos; [|done].
  unfold Qcle, Qle in Hq. simpl in Hq. lia.
Qed.

Lemma clean_and_resize_ok (img : Image Pixel) (target_size : Z)
    (padding : Qc) :
  0 < target_size → (2 * padding < 1)%Qc →
  ∃ out,
    clean_and_resize img target_size padding = Ok out ∧
    im_size out = (target_size, target_size).
Proof.
  intros Hpos Hpad. unfold clean_and_resize.
  destruct (PIL.getbbox img) as [[[[l u] r] b]|] eqn:Hbox.
  - apply getbbox_Some in Hbox as (Hl & _ & Hu & _).
    unfold PIL.crop. rewrite decide_False by lia.
    change (mbind ?f (Ok ?a)) with (f a). cbv beta. cbn [im_size].
    assert (Hden : (0 < 1 - 2 * padding)%Qc).
    { apply Qclt_minus_iff in Hpad. by unfold Qcminus. }
    unfold py_div. rewrite decide_False; last first.
    { intros Hz. rewrite Hz in Hden. by apply Qclt_not_eq in Hden. }
    change (mbind ?f (Ok ?a)) with (f a). cbv beta.
    set (padded_size := py_int _).
    assert (0 ≤ padded_size).
    { apply py_int_nonneg. apply Qcmult_nonneg_nonneg.
      - unfold of_int. rewrite <- Z2Qc_inj_0.
        apply (proj1 (Z2Qc_inj_le _ _)). lia.
      - apply Qclt_le_weak, Qcinv_pos, Hden. }
    rewrite new_ok by done.
    change (mbind ?f (Ok ?a)) with (f a). cbv beta.
    destruct (resize_spec
                (PIL.paste {| im_size := (padded_size, padded_size);
                              im_px := PIL.tabulate (padded_size, padded_size)
                                         (λ _, (0, 0, 0, 0)) |}
                   {| im_size := (r - l, b - u);
                      im_px := PIL.tabulate (r - l, b - u)
                        (λ xy, default transparent
                                 (im_px img !! (xy.1 + l, xy.2 + u))) |}
                   ((padded_size - (r - l)) `div` 2,
                    (padded_size - (b - u)) `div` 2)
                   {| im_size := (r - l, b - u);
                      im_px := PIL.tabulate (r - l, b - u)
                        (λ xy, default transparent
                                 (im_px img !! (xy.1 + l, xy.2 + u))) |})
                (target_size, target_size))
      as (out & Hout & ? & _); [simpl; lia..|].
    exists out. split; [exact Hout|done].
  - destruct (resize_spec img (target_size, target_size))
      as (out & -> & ? & _); [simpl; lia..|].
    by exists out.
Qed.

Lemma clean_and_resize_half (img : Image Pixel) (target_size : Z) :
  PIL.getbbox img ≠ None →
  clean_and_resize img target_size (Q2Qc 0.5) = Raise ZeroDivisionError.
Proof.
  intros Hsome. unfold clean_and_resize.
  destruct (PIL.getbbox img) as [[[[l u] r] b]|] eqn:Hbox; [|done].
  apply getbbox_Some in Hbox as (Hl & _ & Hu & _).
  unfold PIL.crop. rewrite decide_False by lia.
  change (mbind ?f (Ok ?a)) with (f a). cbv beta. cbn [im_size].
  unfold py_div. rewrite decide_True by qc. done.
Qed.

End ImageFacts.

(** ** Checking concrete images *)

Lemma check_well_formed_ok {A} (img : Image A) :
  check_well_formed img = true → well_formed img.
Proof.
  intros [Hsize Hdom]%bool_decide_eq_true. split; [done|]. intros xy.
  by rewrite <- elem_of_dom, Hdom, elem_of_list_to_set, elem_of_coords.
Qed.

Lemma check_rgba_ok (img : Image Pixel) :
  check_well_formed img = true → check_bytes img = true → rgba_image img.
Proof.
  intros Hwf Hbytes%bool_decide_eq_true. split; [by apply check_well_formed_ok|].
  exact Hbytes.
Qed.

Lemma check_transparent_ok (img : Image Pixel) :
  check_transparent img = true → fully_transparent img.
Proof.
  intros Hall%bool_decide_eq_true xy p Hp.
  by apply (bool_decide_unpack _ (Hall xy p Hp)).
Qed.

(** A decidable fact about closed data, by evaluation. *)
Ltac by_evaluation :=
  match goal with |- ?G => apply (bool_decide_unpack G) end;
  vm_compute; exact I.

(** ** The branch synthesizers on concrete inputs *)

Lemma W1_concrete_scenario :
  @math_sin poly_math (@math_radians poly_math 0) = 0 ∧
  @math_cos poly_math (@math_radians poly_math 0) = 1 ∧
  segments (@draw_organic_branch poly_math [] (of_int 100, of_int 200) 0
              (of_int 50) (of_int 10) 0 1 black scenario_table) = 3%nat.
Proof.
  assert (Hsin : @math_sin poly_math (@math_radians poly_math 0) = 0) by qc.
  assert (Hcos : @math_cos poly_math (@math_radians poly_math 0) = 1) by qc.
  split; [exact Hsin|]. split; [exact Hcos|].
  apply (@C1_concrete_scenario poly_math black Hsin Hcos).
Defined.

Lemma W2_depth_termination :
  (0 ≤ 4)%Z ∧
  (Z.of_nat (segments (@draw_organic_branch poly_math [] (of_int 100, of_int 200)
                         0 (of_int 50) (of_int 10) 0 4 black scenario_table))
   ≤ 2 ^ (4 + 1) - 1)%Z.
Proof.
  split; [lia|].
  apply (@C2_depth_termination poly_math (of_int 100, of_int 200) 0
           (of_int 50) (of_int 10) 4 black scenario_table).
  lia.
Defined.

(** A stroke half a pixel wide: [draw_branch] draws it all the same. *)
Lemma X7_thin_branch :
  Q2Qc 0.5 < 1 ∧
  @draw_branch poly_math [] (0, 0) 0 (of_int 10) (Q2Qc 0.5) 0 0 black ≠ [].
Proof.
  split; [done|]. intros H. vm_compute in H. discriminate H.
Qed.

(** The cap of the worked example's first segment has radius 10/2.2, which
    is 50/11 and not 5. *)
Lemma X8_organic_cap :
  ∃ x0 y0 x1 y1 : Qc,
    @draw_organic_branch poly_math [] (of_int 100, of_int 200) 0 (of_int 50)
      (of_int 10) 0 0 black scenario_table !! 1%nat
    = Some (DEllipse x0 y0 x1 y1 black) ∧
    (x1 - x0) / 2 = Q2Qc (50 # 11) ∧
    (x1 - x0) / 2 ≠ of_int 10 / 2.
Proof.
  eexists _, _, _, _. split; [vm_compute; reflexivity|].
  split; [qc|]. intros H. vm_compute in H. discriminate H.
Qed.

(** A branch that passes the guard draws; one beyond [max_depth] does not. *)
Lemma W7_guards :
  @draw_organic_branch poly_math [] (of_int 100, of_int 200) 0 (of_int 50)
    (of_int 10) 2 1 black scenario_table = [].
Proof.
  apply (@C7_guards poly_math [] (of_int 100, of_int 200) 0 (of_int 50)
           (of_int 10) 2 1 black scenario_table).
  left. lia.
Defined.

(** A stroke ten pixels wide: every cap of [draw_branch] is a box Pillow
    draws. *)
Lemma W8_caps :
  0 ≤ of_int 10 ∧
  Forall ordered_box
    (@branch_visits poly_math (0, 0) 0 (of_int 10) (of_int 10) 0 1
       ≫= @visit_ops poly_math (λ c, c_width c / 2) black).
Proof.
  assert (Hw : 0 ≤ of_int 10) by done.
  split; [exact Hw|].
  exact (proj2 (proj1 (@C8_caps poly_math [] (0, 0) 0 (of_int 10) (of_int 10)
                         0 1 black scenario_table) Hw)).
Defined.

(** ** The tracer on concrete images *)

Lemma X3_bounding_box : PIL.getbbox two_pixels ≠ Some (5, 5, 10, 12)%Z.
Proof. vm_compute. discriminate. Qed.

Lemma W3_bounding_box :
  PIL.getbbox two_pixels = Some (5, 5, 11, 13)%Z.
Proof.
  apply C3_bounding_box.
  - apply check_well_formed_ok. vm_compute. reflexivity.
  - intros xy p. unfold two_pixels. cbn [im_px].
    destruct (decide (xy = (5, 5)%Z)) as [->|H1].
    { rewrite lookup_insert_eq. intros [= <-]. split; [by left|done]. }
    rewrite lookup_insert_ne by done.
    destruct (decide (xy = (10, 12)%Z)) as [->|H2].
    { rewrite lookup_insert_eq. intros [= <-]. split; [by right|done]. }
    rewrite lookup_insert_ne, lookup_tabulate by done.
    destruct (decide _); [|done]. intros [= <-].
    split; [done|by intros [?|?]].
  - by_evaluation.
  - by_evaluation.
Defined.

Lemma W4_empty_trace :
  ∃ out,
    @clean_and_resize nearest_pillow clear_image 5 (Q2Qc 0.1) = Ok out ∧
    im_size out = (5, 5)%Z ∧ well_formed out ∧ fully_transparent out.
Proof.
  apply (@C4_empty_trace nearest_pillow clear_image 5 (Q2Qc 0.1)).
  - apply check_well_formed_ok. vm_compute. reflexivity.
  - apply check_transparent_ok. vm_compute. reflexivity.
  - lia.
Defined.

Lemma W5_light_preserves_alpha :
  ∃ light,
    create_light_version tiny_logo = Ok light ∧
    im_size light = (4, 3)%Z ∧
    ∀ xy, in_image (4, 3)%Z xy →
      ∃ p q, im_px tiny_logo !! xy = Some p ∧ im_px light !! xy = Some q ∧
             alpha q = alpha p ∧
             ((alpha p > 0)%Z → q = (255, 255, 255, alpha p)%Z).
Proof.
  apply (C5_light_preserves_alpha tiny_logo).
  apply check_rgba_ok; vm_compute; reflexivity.
Defined.

Lemma X6_no_validation :
  ¬ (0 ≤ Q2Qc (-0.25)) ∧
  (∃ out, @clean_and_resize nearest_pillow tiny_logo 2 (Q2Qc (-0.25)) = Ok out
          ∧ im_size out = (2, 2)%Z) ∧
  (0 ≤ 0)%Z ∧
  (∃ out, @create_supersampled_v2 poly_math nearest_pillow 0 black None 4
          = Ok out ∧ im_size out = (0, 0)%Z).
Proof.
  split; [by intros H; vm_compute in H|].
  split; [eexists; split; [vm_compute; reflexivity|reflexivity]|].
  split; [done|].
  eexists; split; [vm_compute; reflexivity|reflexivity].
Qed.

Lemma W9_trace_binary :
  ∃ result binary,
    @trace_reference nearest_pillow tinted_logo = Ok (result, binary) ∧
    im_size result = (2, 3)%Z ∧
    (∀ xy, in_image (im_size result) xy → is_Some (im_px result !! xy)) ∧
    (∀ xy p, im_px result !! xy = Some p →
       p = (0, 0, 0, 0)%Z ∨ p = (0, 0, 0, 255)%Z).
Proof.
  apply (@C9_trace_binary nearest_pillow tinted_logo).
  apply check_well_formed_ok. vm_compute. reflexivity.
Defined.

Lemma W10_light_depends_on_alpha :
  ∃ light,
    create_light_version tiny_logo = Ok light ∧
    create_light_version tinted_logo = Ok light.
Proof.
  apply (C10_light_depends_on_alpha tiny_logo tinted_logo).
  - apply check_well_formed_ok. vm_compute. reflexivity.
  - apply check_well_formed_ok. vm_compute. reflexivity.
  - done.
  - intros xy. unfold tiny_logo, tinted_logo. cbn [im_px].
    destruct (decide (xy = (1, 1)%Z)) as [->|H1];
      [by rewrite !lookup_insert_eq|rewrite !(lookup_insert_ne _ (1, 1)%Z) by done].
    destruct (decide (xy = (2, 1)%Z)) as [->|H2];
      [by rewrite !lookup_insert_eq|rewrite !(lookup_insert_ne _ (2, 1)%Z) by done].
    rewrite !lookup_tabulate. by destruct (decide _).
Defined.

(** * Further properties *)

(** Induction on the number of levels from [depth] to [max_depth]. *)
Ltac levels_induction depth max_depth :=
  let n := fresh "n" in
  let Hn := fresh "Hn" in
  let IH := fresh "IH" in
  remember (Z.to_nat (max_depth + 1 - depth)) as n eqn:Hn;
  revert depth Hn;
  repeat match goal with
         | x : Qc |- _ => revert x
         | x : Point |- _ => revert x
         end;
  induction n as [|n IH]; intros.

(** ** The log of the branch synthesizers *)

Section BranchLog.
Context {M : MathModule}.

(** X1.  Both synthesizers only append to the drawing log: the calls already
    issued stay as they are, and what is appended does not depend on them. *)
Theorem branch_log_frame (draw : ImageDraw) (start : Point)
    (angle length width : Qc) (depth max_depth : Z) (color : Color)
    (branch_data : gmap Z BranchParams) :
  draw_branch draw start angle length width depth max_depth color =
  draw ++ draw_branch [] start angle length width depth max_depth color ∧
  draw_organic_branch draw start angle length width depth max_depth color
    branch_data =
  draw ++ draw_organic_branch [] start angle length width depth max_depth
            color branch_data.
Proof.
  split.
  - by rewrite (draw_branch_visits draw), (draw_branch_visits []).
  - by rewrite (draw_organic_branch_visits draw),
      (draw_organic_branch_visits []).
Qed.

Lemma visit_ops_shape cap color vs :
  let log := vs ≫= visit_ops cap color in
  Forall (λ op, PIL.fill_of op = color ∧ ∀ points fill, op ≠ DPolygon points fill)
         log ∧
  List.length log = (2 * segments log)%nat.
Proof.
  cbn zeta. induction vs as [|[c|c] vs [IHall IHlen]].
  - by split; [constructor|].
  - rewrite bind_cons. split.
    + apply Forall_app. split; [|done].
      by repeat constructor.
    + rewrite length_app, segments_app, IHlen.
      change (segments (visit_ops cap color (Drew c))) with 1%nat.
      simpl. lia.
  - rewrite bind_cons. by split.
Qed.

(** X2.  Whatever the arguments, a run draws in the one colour it was given,
    draws lines and ellipses only, and as many ellipses as lines. *)
Theorem branch_log_shape (start : Point) (angle length width : Qc)
    (depth max_depth : Z) (color : Color)
    (branch_data : gmap Z BranchParams) :
  let shape (log : ImageDraw) :=
    Forall (λ op, PIL.fill_of op = color ∧
                  ∀ points fill, op ≠ DPolygon points fill) log ∧
    List.length log = (2 * segments log)%nat in
  shape (draw_branch [] start angle length width depth max_depth color) ∧
  shape (draw_organic_branch [] start angle length width depth max_depth
           color branch_data).
Proof.
  cbn zeta. rewrite draw_branch_visits, draw_organic_branch_visits.
  cbn [app]. split; apply visit_ops_shape.
Qed.

Lemma py_int_ge_1 (x : Qc) : ¬ (x < 1) → (1 ≤ py_int x)%Z.
Proof.
  intros Hx. apply Qcnot_lt_le in Hx. unfold py_int.
  assert (Zpos (Qden x) ≤ Qnum x)%Z.
  { unfold Qcle, Qle in Hx. simpl in Hx. lia. }
  rewrite Z.quot_div_nonneg by lia.
  apply Z.div_le_lower_bound; lia.
Qed.

Lemma visit_ops_line cap color vs op :
  op ∈ vs ≫= visit_ops cap color →
  ∀ s e f w, op = DLine s e f w →
    ∃ c, Drew c ∈ vs ∧ w = Z.max 1 (py_int (c_width c)).
Proof.
  intros Hop s e f w ->. apply list_elem_of_bind in Hop as (v & Hop & Hv).
  destruct v as [c|c]; [|by apply not_elem_of_nil in Hop].
  exists c. split; [done|]. unfold visit_ops, segment_ops in Hop.
  apply elem_of_cons in Hop as [[= _ _ _ ->]|Hop]; [done|].
  by apply list_elem_of_singleton in Hop.
Qed.

(** X3.  Nothing degenerate is drawn.  Every line has a width of at least one
    pixel; in [draw_organic_branch] every segment drawn is at least 3 long
    and 1 wide, so that the clamp [max(1, int(width))] never changes the
    width there; in [draw_branch] every segment drawn is at least 2 long. *)
Theorem branch_no_degenerate_segment (start : Point)
    (angle length width : Qc) (depth max_depth : Z) (color : Color)
    (branch_data : gmap Z BranchParams) :
  (∀ s e f w,
     DLine s e f w ∈ draw_branch [] start angle length width depth max_depth
                       color →
     (1 ≤ w)%Z) ∧
  (∀ c, Drew c ∈ branch_visits start angle length width depth max_depth →
     of_int 2 ≤ c_length c) ∧
  (∀ s e f w,
     DLine s e f w ∈ draw_organic_branch [] start angle length width depth
                       max_depth color branch_data →
     (1 ≤ w)%Z) ∧
  (∀ c, Drew c ∈ organic_visits start angle length width depth max_depth
                   branch_data →
     of_int 3 ≤ c_length c ∧ 1 ≤ c_width c ∧
     Z.max 1 (py_int (c_width c)) = py_int (c_width c)).
Proof.
  rewrite draw_branch_visits, draw_organic_branch_visits. cbn [app].
  repeat split.
  - intros s e f w Hop.
    destruct (visit_ops_line _ _ _ _ Hop s e f w eq_refl) as (c & _ & ->). lia.
  - intros c Hc. by apply Qcnot_lt_le, (branch_visits_guard _ _ _ _ _ _ _ Hc).
  - intros s e f w Hop.
    destruct (visit_ops_line _ _ _ _ Hop s e f w eq_refl) as (c & _ & ->). lia.
  - apply Qcnot_lt_le. by eapply organic_visits_guard.
  - apply Qcnot_lt_le. by eapply organic_visits_guard.
  - apply Z.max_r, py_int_ge_1. by eapply organic_visits_guard.
Qed.

End BranchLog.

(** ** The branch table *)

Section BranchTable.
Context {M : MathModule}.

Lemma organic_table_ext draw start angle length width depth max_depth color
    (t1 t2 : gmap Z BranchParams) :
  (∀ d, (depth ≤ d ≤ max_depth)%Z →
     default default_params (t1 !! d) = default default_params (t2 !! d)) →
  draw_organic_branch draw start angle length width depth max_depth color t1 =
  draw_organic_branch draw start angle length width depth max_depth color t2.
Proof.
  revert draw. levels_induction depth max_depth;
    rewrite (draw_organic_branch_eq _ _ _ _ _ _ _ _ t1),
      (draw_organic_branch_eq _ _ _ _ _ _ _ _ t2);
    destruct (decide _) as [Hstop|Hgo]; try done.
  - destruct Hgo. left. lia.
  - assert (depth ≤ max_depth)%Z
      by (destruct (decide (depth ≤ max_depth)%Z);
          [done|destruct Hgo; left; lia]).
    cbn zeta. rewrite <- (H depth) by lia.
    etrans; [apply IH; [lia|intros; apply H; lia]|].
    f_equal. apply IH; [lia|]. intros. apply H. lia.
Qed.

(** X4.  A depth that is missing from the branch table behaves as the literal
    default (spread 40, length factor 0.6, width factor 0.7): writing the
    default into the table at that depth changes nothing. *)
Theorem organic_missing_key_default (draw : ImageDraw) (start : Point)
    (angle length width : Qc) (depth max_depth : Z) (color : Color)
    (branch_data : gmap Z BranchParams) (k : Z) :
  branch_data !! k = None →
  draw_organic_branch draw start angle length width depth max_depth color
    (<[k := {| spread := of_int 40; length_factor := Q2Qc 0.6;
               width_factor := Q2Qc 0.7 |}]> branch_data) =
  draw_organic_branch draw start angle length width depth max_depth color
    branch_data.
Proof.
  intros Hk. apply organic_table_ext. intros d _.
  destruct (decide (k = d)) as [->|Hne].
  - by rewrite lookup_insert_eq, Hk.
  - by rewrite lookup_insert_ne.
Qed.

(** X5.  Only the entries for the depths from [depth] to [max_depth] are ever
    read: two tables that agree there give the same drawing. *)
Theorem organic_table_locality (draw : ImageDraw) (start : Point)
    (angle length width : Qc) (depth max_depth : Z) (color : Color)
    (t1 t2 : gmap Z BranchParams) :
  (∀ d, (depth ≤ d ≤ max_depth)%Z → t1 !! d = t2 !! d) →
  draw_organic_branch draw start angle length width depth max_depth color t1 =
  draw_organic_branch draw start angle length width depth max_depth color t2.
Proof.
  intros Hagree. apply organic_table_ext. intros d Hd. by rewrite Hagree.
Qed.

End BranchTable.

(** ** The shape of the tree *)

Lemma branch_drew_independent (M1 M2 : MathModule) (s1 s2 : Point)
    (a1 a2 w1 w2 length : Qc) (depth max_depth : Z) :
  List.length (filter drew (@branch_visits M1 s1 a1 length w1 depth max_depth)) =
  List.length (filter drew (@branch_visits M2 s2 a2 length w2 depth max_depth)).
Proof.
  revert s1 s2 a1 a2 w1 w2. levels_induction depth max_depth;
    rewrite !branch_visits_eq; cbn zeta;
    destruct (decide _) as [Hstop|Hgo]; try done.
  - destruct Hgo. left. lia.
  - rewrite !filter_cons_True, !filter_app by done.
    cbn [List.length]. rewrite !length_app. f_equal.
    f_equal; apply IH; lia.
Qed.

Lemma organic_drew_independent (M1 M2 : MathModule) (s1 s2 : Point)
    (a1 a2 length width : Qc) (depth max_depth : Z)
    (t1 t2 : gmap Z BranchParams) :
  (∀ d, length_factor (default default_params (t1 !! d)) =
        length_factor (default default_params (t2 !! d)) ∧
        width_factor (default default_params (t1 !! d)) =
        width_factor (default default_params (t2 !! d))) →
  List.length (filter drew (@organic_visits M1 s1 a1 length width depth
                              max_depth t1)) =
  List.length (filter drew (@organic_visits M2 s2 a2 length width depth
                              max_depth t2)).
Proof.
  intros Ht. revert s1 s2 a1 a2. levels_induction depth max_depth;
    rewrite !organic_visits_eq; cbn zeta;
    destruct (decide _) as [Hstop|Hgo]; try done.
  - destruct Hgo. left. lia.
  - rewrite !filter_cons_True, !filter_app by done.
    cbn [List.length]. rewrite !length_app.
    destruct (Ht depth) as [-> ->]. f_equal.
    f_equal; apply IH; lia.
Qed.

(** X6.  How many segments are drawn does not depend on where the tree starts,
    on its direction, on the colour or on the sine and cosine in use; in
    [draw_branch] not on the stroke width either, as long as it is not
    negative (a negative width inverts the box of the first cap), and in
    [draw_organic_branch] not on the spread angles of the table.  It is
    decided by the length, the recursion depths and, in the second
    generator, the width and the decay factors. *)
Theorem branch_count_independent (M1 M2 : MathModule) (s1 s2 : Point)
    (a1 a2 w1 w2 length width : Qc) (depth max_depth : Z) (c1 c2 : Color)
    (t1 t2 : gmap Z BranchParams) :
  0 ≤ w1 → 0 ≤ w2 →
  (∀ d, length_factor (default default_params (t1 !! d)) =
        length_factor (default default_params (t2 !! d)) ∧
        width_factor (default default_params (t1 !! d)) =
        width_factor (default default_params (t2 !! d))) →
  segments (@draw_branch M1 [] s1 a1 length w1 depth max_depth c1) =
  segments (@draw_branch M2 [] s2 a2 length w2 depth max_depth c2) ∧
  segments (@draw_organic_branch M1 [] s1 a1 length width depth max_depth c1
              t1) =
  segments (@draw_organic_branch M2 [] s2 a2 length width depth max_depth c2
              t2).
Proof.
  intros _ _ Ht. rewrite !draw_branch_visits, !draw_organic_branch_visits.
  cbn [app]. rewrite !segments_visits. split.
  - apply branch_drew_independent.
  - by apply organic_drew_independent.
Qed.

(** ** Complete and pruned trees *)

Section CompleteTrees.
Context {M : MathModule}.

Lemma decay_power_bounds (m : nat) :
  0 < Q2Qc 0.65 ^ m ∧ Q2Qc 0.65 ^ m ≤ 1.
Proof.
  induction m as [|m [IHpos IHle]]; [done|].
  cbn [Qcpower]. set (p := Q2Qc 0.65 ^ m) in *. clearbody p.
  split; qc_to_q; nra.
Qed.

Lemma branch_complete_levels (m : nat) (start : Point)
    (angle length width : Qc) (depth max_depth : Z) :
  S m = Z.to_nat (max_depth + 1 - depth) →
  let drawn := List.length (filter drew (branch_visits start angle length width
                                           depth max_depth)) in
  (of_int 2 ≤ length * Q2Qc 0.65 ^ m → drawn = (2 ^ S m - 1)%nat) ∧
  (length * Q2Qc 0.65 ^ m < of_int 2 → (drawn < 2 ^ S m - 1)%nat).
Proof.
  cbn zeta. revert start angle length width depth.
  induction m as [|m IH]; intros start angle length width depth Hm;
    rewrite branch_visits_eq; cbn zeta.
  - rewrite !(branch_visits_eq _ _ _ _ (depth + 1)). cbn zeta.
    rewrite !(decide_True (P := (depth + 1 > max_depth)%Z ∨ _)) by (left; lia).
    cbn [Qcpower]. rewrite Qcmult_1_r.
    destruct (decide _) as [[Hstop|Hstop]|Hgo]; [lia| |]; simpl.
    + split; [|lia]. intros Hge. by apply Qcle_not_lt in Hge.
    + split; [done|]. intros Hlt. destruct Hgo. by right.
  - pose proof (pow2_pos := Nat.pow_nonzero 2 (S m)).
    destruct (decay_power_bounds (S m)) as [Hpos Hle].
    destruct (IH (call_end (Build_Call start angle length width depth))
                (angle - of_int (35 + depth * 5)) (length * Q2Qc 0.65)
                (width * Q2Qc 0.7) (depth + 1)%Z ltac:(lia)) as [IHl1 IHl2].
    destruct (IH (call_end (Build_Call start angle length width depth))
                (angle + of_int (35 + depth * 5)) (length * Q2Qc 0.65)
                (width * Q2Qc 0.7) (depth + 1)%Z ltac:(lia)) as [IHr1 IHr2].
    assert (Hassoc : length * Q2Qc 0.65 ^ S m =
                     length * Q2Qc 0.65 * Q2Qc 0.65 ^ m)
      by (cbn [Qcpower]; ring).
    rewrite Hassoc in *. clear Hassoc.
    destruct (decide _) as [[Hstop|Hstop]|Hgo]; [lia| |].
    + rewrite filter_cons_False, filter_nil by (by intros []).
      cbn [List.length]. split; [|intros; rewrite Nat.pow_succ_r'; lia].
      intros Hge. exfalso. revert Hstop Hge Hpos Hle.
      cbn [Qcpower]. set (p := Q2Qc 0.65 ^ m). clearbody p.
      qc_to_q. intros. nra.
    + rewrite filter_cons_True, filter_app by done.
      cbn [List.length]. rewrite length_app, (Nat.pow_succ_r' 2 (S m)).
      split; intros Hlen.
      * rewrite IHl1, IHr1 by done. lia.
      * specialize (IHl2 Hlen). specialize (IHr2 Hlen). lia.
Qed.

(** X7.  For a stroke width of at least 0, the tree of [draw_branch] is
    complete, with [2^(max_depth+1) - 1] segments, when the length after
    [max_depth] decays by 0.65 clears the guard's 2 by the [margin], and has
    fewer segments when it falls short of 2 by the [margin].  (Between the
    two the rounding of the products decides.) *)
Theorem branch_complete_tree (start : Point) (angle length width : Qc)
    (max_depth : Z) (color : Color) :
  (0 ≤ max_depth)%Z → 0 ≤ width →
  let drawn :=
    segments (draw_branch [] start angle length width 0 max_depth color) in
  let levels := Z.to_nat (max_depth + 1) in
  let decayed := length * Q2Qc 0.65 ^ Z.to_nat max_depth in
  (of_int 2 * (1 + margin) ≤ decayed → drawn = (2 ^ levels - 1)%nat) ∧
  (decayed ≤ of_int 2 * (1 - margin) → (drawn < 2 ^ levels - 1)%nat).
Proof.
  intros Hmax _. cbn zeta. rewrite draw_branch_visits. cbn [app].
  rewrite segments_visits.
  replace (Z.to_nat (max_depth + 1)) with (S (Z.to_nat max_depth)) by lia.
  destruct (branch_complete_levels (Z.to_nat max_depth) start angle length
              width 0 max_depth ltac:(lia)) as [Hfull Hpruned].
  split; intros Hlen.
  - apply Hfull. by apply (Qcle_trans _ (of_int 2 * (1 + margin))).
  - apply Hpruned. by apply (Qcle_lt_trans _ (of_int 2 * (1 - margin))).
Qed.

Lemma organic_complete_levels (n : nat) (start : Point)
    (angle length width : Qc) (depth max_depth : Z)
    (branch_data : gmap Z BranchParams) :
  n = Z.to_nat (max_depth + 1 - depth) →
  let drawn := List.length (filter drew (organic_visits start angle length
                                           width depth max_depth
                                           branch_data)) in
  (sustained branch_data n length width depth → drawn = (2 ^ n - 1)%nat) ∧
  (¬ sustained branch_data n length width depth →
   (drawn < 2 ^ n - 1)%nat).
Proof.
  cbn zeta. revert start angle length width depth.
  induction n as [|n IH]; intros start angle length width depth Hn;
    rewrite organic_visits_eq; cbn zeta.
  - rewrite decide_True by (left; lia). simpl. split; [done|]. by intros [].
  - pose proof (pow2_pos := Nat.pow_nonzero 2 n).
    cbn [sustained]. cbn zeta.
    set (params := default default_params (branch_data !! depth)).
    destruct (IH (call_end (Build_Call start angle length width depth))
                (angle - (spread params + of_int (depth * 3)))
                (length * length_factor params) (width * width_factor params)
                (depth + 1)%Z ltac:(lia)) as [IHl1 IHl2].
    destruct (IH (call_end (Build_Call start angle length width depth))
                (angle + (spread params + of_int (depth * 2)))
                (length * length_factor params) (width * width_factor params)
                (depth + 1)%Z ltac:(lia)) as [IHr1 IHr2].
    destruct (decide _) as [[Hstop|Hstop]|Hgo]; [lia| |].
    + rewrite filter_cons_False, filter_nil by (by intros []).
      cbn [List.length]. split; [by intros [? _]|]. intros _.
      rewrite Nat.pow_succ_r'. lia.
    + rewrite filter_cons_True, filter_app by done.
      cbn [List.length]. rewrite length_app, (Nat.pow_succ_r' 2 n).
      split.
      * intros [_ Hrest]. rewrite IHl1, IHr1 by done. lia.
      * intros Hnot.
        assert (Hrest : ¬ sustained branch_data n
                          (length * length_factor params)
                          (width * width_factor params) (depth + 1)).
        { intros Hrest. apply Hnot. split; [|done].
          intros ?. apply Hgo. by right. }
        specialize (IHl2 Hrest). specialize (IHr2 Hrest). lia.
Qed.

Lemma clears_sustained (branch_data : gmap Z BranchParams) (n : nat)
    (min_length min_width length width : Qc) (depth : Z) :
  of_int 3 ≤ min_length → 1 ≤ min_width →
  clears branch_data n min_length min_width length width depth →
  sustained branch_data n length width depth.
Proof.
  intros Hl Hw. revert length width depth.
  induction n as [|n IH]; intros length width depth; [done|].
  cbn [clears sustained]. intros (Hlen & Hwid & Hrest).
  split; [|by apply IH]. intros [Hlt|Hlt].
  - by apply (Qcle_not_lt _ _ (Qcle_trans _ _ _ Hl Hlen)).
  - by apply (Qcle_not_lt _ _ (Qcle_trans _ _ _ Hw Hwid)).
Qed.

Lemma sustained_clears (branch_data : gmap Z BranchParams) (n : nat)
    (min_length min_width length width : Qc) (depth : Z) :
  min_length ≤ of_int 3 → min_width ≤ 1 →
  sustained branch_data n length width depth →
  clears branch_data n min_length min_width length width depth.
Proof.
  intros Hl Hw. revert length width depth.
  induction n as [|n IH]; intros length width depth; [done|].
  cbn [clears sustained]. intros [Hgo Hrest].
  split; [|split; [|by apply IH]].
  - apply (Qcle_trans _ _ _ Hl), Qcnot_lt_le. intros ?. apply Hgo. by left.
  - apply (Qcle_trans _ _ _ Hw), Qcnot_lt_le. intros ?. apply Hgo. by right.
Qed.

(** X8.  For a table of decay factors between 0 and 1, the tree of
    [draw_organic_branch] is complete when, level by level down to
    [max_depth], the decayed length clears the guard's 3 and the decayed
    width the guard's 1 by the [margin]; it has fewer segments when at some
    level one of them falls short of its threshold by the [margin].
    (Between the two the rounding of the products decides.) *)
Theorem organic_complete_tree (start : Point) (angle length width : Qc)
    (max_depth : Z) (color : Color) (branch_data : gmap Z BranchParams) :
  (0 ≤ max_depth)%Z →
  (∀ d, let params := default default_params (branch_data !! d) in
        (0 ≤ length_factor params ∧ length_factor params ≤ 1) ∧
        (0 ≤ width_factor params ∧ width_factor params ≤ 1)) →
  let drawn :=
    segments (draw_organic_branch [] start angle length width 0 max_depth
                color branch_data) in
  let levels := Z.to_nat (max_depth + 1) in
  (clears branch_data levels (of_int 3 * (1 + margin)) (1 + margin)
     length width 0 →
   drawn = (2 ^ levels - 1)%nat) ∧
  (¬ clears branch_data levels (of_int 3 * (1 - margin)) (1 - margin)
       length width 0 →
   (drawn < 2 ^ levels - 1)%nat).
Proof.
  intros Hmax _. cbn zeta. rewrite draw_organic_branch_visits. cbn [app].
  rewrite segments_visits.
  destruct (organic_complete_levels (Z.to_nat (max_depth + 1)) start angle
              length width 0 max_depth branch_data ltac:(lia))
    as [Hfull Hpruned].
  split; intros Hchain.
  - apply Hfull. by apply clears_sustained in Hchain.
  - apply Hpruned. intros Hs. apply Hchain.
    by apply sustained_clears with (min_length := of_int 3 * (1 - margin))
                                    (min_width := 1 - margin) in Hs.
Qed.

End CompleteTrees.

(** ** The dock icon of create_dock_logo_v2.py *)

Section IconFacts.
Context {M : MathModule} {P : Pillow}.
Local Open Scope Z_scope.

Lemma organic_log_length draw start angle length width depth max_depth color
    branch_data :
  let drawn := List.length (filter drew (organic_visits start angle length
                                           width depth max_depth
                                           branch_data)) in
  let log := draw_organic_branch draw start angle length width depth
               max_depth color branch_data in
  List.length log = (List.length draw + 2 * drawn)%nat ∧
  segments log = (segments draw + drawn)%nat.
Proof.
  cbn zeta. rewrite draw_organic_branch_visits, length_app, segments_app.
  destruct (visit_ops_shape organic_cap color
              (organic_visits start angle length width depth max_depth
                 branch_data)) as [_ Hlen].
  cbn zeta in Hlen. rewrite Hlen, segments_visits. done.
Qed.

Lemma segments_single op :
  segments [op] = if is_line op then 1%nat else 0%nat.
Proof. by destruct op. Qed.

Lemma diamond_log_length draw cx cy size color inner_color :
  let log := draw_git_tag_diamond draw cx cy size color inner_color in
  List.length log = (List.length draw + 7)%nat ∧
  segments log = (segments draw + 2)%nat.
Proof.
  cbn zeta. unfold draw_git_tag_diamond, draw_polygon, draw_line, draw_ellipse.
  cbn [foldl]. rewrite !segments_app, !length_app, !segments_single.
  cbn [is_line List.length]. lia.
Qed.

Lemma icon_table_lookups :
  default default_params (icon_branch_data !! 0) =
    {| spread := of_int 28; length_factor := Q2Qc 0.72;
       width_factor := Q2Qc 0.78 |} ∧
  default default_params (icon_branch_data !! (0 + 1)) =
    {| spread := of_int 35; length_factor := Q2Qc 0.68;
       width_factor := Q2Qc 0.72 |} ∧
  default default_params (icon_branch_data !! (0 + 1 + 1)) =
    {| spread := of_int 42; length_factor := Q2Qc 0.62;
       width_factor := Q2Qc 0.65 |} ∧
  default default_params (icon_branch_data !! (0 + 1 + 1 + 1)) =
    {| spread := of_int 48; length_factor := Q2Qc 0.55;
       width_factor := Q2Qc 0.58 |} ∧
  default default_params (icon_branch_data !! (0 + 1 + 1 + 1 + 1)) =
    {| spread := of_int 55; length_factor := Q2Qc 0.5;
       width_factor := Q2Qc 0.5 |}.
Proof. repeat split; vm_compute; reflexivity. Qed.

Lemma icon_sustained (size : Z) :
  (100 ≤ size →
   sustained icon_branch_data 5 (of_int size * Q2Qc 0.18)
     (of_int size * Q2Qc 0.055 * Q2Qc 0.9) 0) ∧
  (size < 100 →
   ¬ sustained icon_branch_data 5 (of_int size * Q2Qc 0.18)
       (of_int size * Q2Qc 0.055 * Q2Qc 0.9) 0).
Proof.
  destruct icon_table_lookups as (H0 & H1 & H2 & H3 & H4).
  cbn [sustained]. cbn zeta. rewrite H0, H1, H2, H3, ?H4.
  cbn [length_factor width_factor]. clear H0 H1 H2 H3 H4.
  split.
  - intros Hsize. rewrite Zle_Qle in Hsize.
    repeat split; intros [Hlt|Hlt]; revert Hlt Hsize; clear;
      qc_to_q; intros; lra.
  - intros Hsize (_ & _ & _ & _ & Hlast & _).
    apply Hlast. left. assert (Hle : size ≤ 99) by lia.
    rewrite Zle_Qle in Hle. revert Hle; clear; qc_to_q; intros; lra.
Qed.

(** X9.  From size 100 on the icon holds the complete tree: 133 drawing calls,
    66 of them lines (the trunk, 31 segments on each main branch, the
    connection and the two strokes of the tag).  Below 100 the last level
    of branches falls under the 3-pixel guard and the tree is pruned; the
    result does not depend on the padding ratio or the background. *)
Theorem icon_v2_complete_from_100 (size : Z) (color : Color)
    (bg_color : option Color) (padding_ratio : Qc) :
  0 ≤ size →
  ∃ canvas,
    create_grove_dock_icon_v2 size color bg_color padding_ratio = Ok canvas ∧
    im_size (cv_image canvas) = (size, size) ∧
    (100 ≤ size →
     List.length (cv_draw canvas) = 133%nat ∧
     segments (cv_draw canvas) = 66%nat) ∧
    (size < 100 → (List.length (cv_draw canvas) < 133)%nat).
Proof.
  intros Hsize. unfold create_grove_dock_icon_v2.
  assert (Hnew : ∀ c : Color,
            PIL.new (size, size) c =
            Ok {| im_size := (size, size);
                  im_px := PIL.tabulate (size, size) (λ _, c) |})
    by (intros; by apply new_ok).
  destruct (icon_sustained size) as [Hfull Hpruned].
  assert (Hcount : ∀ start angle,
            let drawn := List.length (filter drew (organic_visits start angle
                           (of_int size * Q2Qc 0.18)
                           (of_int size * Q2Qc 0.055 * Q2Qc 0.9) 0 4
                           icon_branch_data)) in
            (100 ≤ size → drawn = 31%nat) ∧ (size < 100 → (drawn < 31)%nat)).
  { intros start angle.
    destruct (organic_complete_levels 5 start angle
                (of_int size * Q2Qc 0.18)
                (of_int size * Q2Qc 0.055 * Q2Qc 0.9) 0 4 icon_branch_data
                eq_refl) as [Hc1 Hc2].
    split; intros; [by apply Hc1, Hfull|by apply Hc2, Hpruned]. }
  pose proof (λ d x y sz c i, proj1 (diamond_log_length d x y sz c i)) as Hd1.
  pose proof (λ d x y sz c i, proj2 (diamond_log_length d x y sz c i)) as Hd2.
  pose proof (λ d st a c,
                proj1 (organic_log_length d st a (of_int size * Q2Qc 0.18)
                         (of_int size * Q2Qc 0.055 * Q2Qc 0.9) 0 4 c
                         icon_branch_data)) as Ho1.
  pose proof (λ d st a c,
                proj2 (organic_log_length d st a (of_int size * Q2Qc 0.18)
                         (of_int size * Q2Qc 0.055 * Q2Qc 0.9) 0 4 c
                         icon_branch_data)) as Ho2.
  cbn zeta in Hd1, Hd2, Ho1, Ho2.
  destruct bg_color as [bg|]; rewrite !Hnew;
    change (mbind ?f (Ok ?a)) with (f a); cbv beta iota zeta;
    (eexists; split; [reflexivity|]; split; [reflexivity|]);
    cbn [cv_draw]; rewrite Hd1, Hd2; unfold draw_line;
    rewrite !length_app, !segments_app, !Ho1, !Ho2, !length_app,
      !segments_app, !segments_single;
    cbn [is_line List.length];
    match goal with
    | |- context [organic_visits ?st (of_int (-22)) _ _ _ _ _] =>
      destruct (Hcount st (of_int (-22))) as [Hl1 Hl2];
      destruct (Hcount st (of_int 22)) as [Hr1 Hr2]
    end;
    cbn zeta in *;
    (split; [intros Hbig; rewrite (Hr1 Hbig), (Hl1 Hbig); split; reflexivity
            |intros Hsmall; specialize (Hr2 Hsmall); specialize (Hl2 Hsmall);
             lia]).
Qed.

(** X10.  Up to size 20 the main branches are less than one pixel wide, so that
    no branch is drawn at all: the icon consists of the trunk, the
    connection and the tag, nine drawing calls. *)
Theorem icon_v2_bare_up_to_20 (size : Z) (color : Color)
    (bg_color : option Color) (padding_ratio : Qc) :
  0 ≤ size ≤ 20 →
  ∃ canvas,
    create_grove_dock_icon_v2 size color bg_color padding_ratio = Ok canvas ∧
    List.length (cv_draw canvas) = 9%nat ∧
    ∀ draw start angle,
      draw_organic_branch draw start angle (of_int size * Q2Qc 0.18)
        (of_int size * Q2Qc 0.055 * Q2Qc 0.9) 0 4 color icon_branch_data
      = draw.
Proof.
  intros [Hsize Hsmall]. unfold create_grove_dock_icon_v2.
  assert (Hnew : ∀ c : Color,
            PIL.new (size, size) c =
            Ok {| im_size := (size, size);
                  im_px := PIL.tabulate (size, size) (λ _, c) |})
    by (intros; by apply new_ok).
  assert (Hthin : (of_int size * Q2Qc 0.055 * Q2Qc 0.9 < 1)%Qc).
  { rewrite Zle_Qle in Hsmall. revert Hsmall; clear; qc_to_q; intros; lra. }
  assert (Hnone : ∀ draw start angle,
            draw_organic_branch draw start angle (of_int size * Q2Qc 0.18)
              (of_int size * Q2Qc 0.055 * Q2Qc 0.9) 0 4 color
              icon_branch_data = draw).
  { intros. rewrite draw_organic_branch_eq. by rewrite decide_True by auto. }
  destruct bg_color as [bg|]; rewrite !Hnew;
    change (mbind ?f (Ok ?a)) with (f a); cbv beta iota zeta;
    (eexists; split; [reflexivity|]; split; [|exact Hnone]);
    cbn [cv_draw]; rewrite !Hnone;
    match goal with
    | |- context [draw_git_tag_diamond ?d ?x ?y ?s ?c ?i] =>
      destruct (diamond_log_length d x y s c i) as [-> _]
    end; reflexivity.
Qed.

End IconFacts.

(** ** Rendering and the supersampling wrappers *)

Section RenderFacts.
Context {M : MathModule} {P : Pillow}.
Local Open Scope Z_scope.

Lemma rasterize_well_formed img op :
  well_formed img → well_formed (PIL.rasterize img op).
Proof.
  intros [Hsize Hpx]. split; [done|]. intros xy. simpl.
  rewrite map_lookup_imap, <- Hpx. unfold Pixel, Color in *.
  destruct (im_px img !! xy); simpl.
  - split; by eexists.
  - tauto.
Qed.

Lemma canvas_pixels_spec (canvas : Canvas) :
  well_formed (cv_image canvas) →
  well_formed (canvas_pixels canvas) ∧
  im_size (canvas_pixels canvas) = im_size (cv_image canvas).
Proof.
  unfold canvas_pixels. destruct canvas as [img draw]. simpl.
  revert img. induction draw as [|op draw IH]; intros img Hwf; [done|].
  simpl. destruct (IH (PIL.rasterize img op)) as [? ?];
    [by apply rasterize_well_formed|]. done.
Qed.

Lemma downsample_spec (canvas : Canvas) (target_size : Z) :
  well_formed (cv_image canvas) → 1 ≤ target_size →
  ∃ out,
    PIL.resize (canvas_pixels canvas) (target_size, target_size) = Ok out ∧
    im_size out = (target_size, target_size) ∧ well_formed out.
Proof.
  intros Hwf Htarget. destruct (canvas_pixels_spec canvas Hwf) as [Hpx _].
  destruct (resize_spec (canvas_pixels canvas) (target_size, target_size))
    as (out & Hout & Hsize & _ & Hwfout); [simpl; lia..|].
  exists out. auto.
Qed.

Lemma icon_v2_returns (size : Z) (color : Color) (bg_color : option Color)
    (padding_ratio : Qc) :
  0 ≤ size →
  ∃ canvas,
    create_grove_dock_icon_v2 size color bg_color padding_ratio = Ok canvas ∧
    well_formed (cv_image canvas) ∧
    im_size (cv_image canvas) = (size, size).
Proof.
  intros Hsize. unfold create_grove_dock_icon_v2.
  destruct bg_color as [bg|]; rewrite new_ok by done;
    change (mbind ?f (Ok ?a)) with (f a); cbv beta iota zeta;
    (eexists; split; [reflexivity|]); (split; [|done]);
    by apply tabulate_well_formed.
Qed.

Lemma dock_icon_returns (size : Z) (color : Color) (bg_color : option Color)
    (padding_ratio : Qc) :
  0 ≤ size →
  ∃ canvas,
    DockLogo.create_grove_dock_icon size color bg_color padding_ratio
    = Ok canvas ∧
    well_formed (cv_image canvas) ∧
    im_size (cv_image canvas) = (size, size).
Proof.
  intros Hsize. unfold DockLogo.create_grove_dock_icon.
  destruct bg_color as [bg|]; rewrite new_ok by done;
    change (mbind ?f (Ok ?a)) with (f a); cbv beta iota zeta;
    (eexists; split; [reflexivity|]); (split; [|done]);
    by apply tabulate_well_formed.
Qed.

Lemma simple_tree_returns (size : Z) (color : Color) (padding_ratio : Qc) :
  0 ≤ size →
  ∃ canvas,
    CrispMenubar.create_simple_tree size color padding_ratio = Ok canvas ∧
    well_formed (cv_image canvas) ∧
    im_size (cv_image canvas) = (size, size).
Proof.
  intros Hsize. unfold CrispMenubar.create_simple_tree.
  rewrite new_ok by done.
  change (mbind ?f (Ok ?a)) with (f a); cbv beta iota zeta.
  eexists; split; [reflexivity|]. split; [|done].
  by apply tabulate_well_formed.
Qed.

(** X11.  For a target size and a supersampling factor of at least 1, each of the
    three supersampling wrappers returns without error a well-formed image
    of exactly [target_size] x [target_size], whatever the colours. *)
Theorem supersampled_returns_target_size (target_size supersample : Z)
    (color : Color) (bg_color : option Color) :
  1 ≤ target_size → 1 ≤ supersample →
  let good (r : Result (Image Pixel)) :=
    ∃ out, r = Ok out ∧ im_size out = (target_size, target_size) ∧
           well_formed out in
  good (create_supersampled_v2 target_size color bg_color supersample) ∧
  good (DockLogo.create_supersampled target_size color bg_color supersample) ∧
  good (CrispMenubar.create_supersampled target_size color supersample).
Proof.
  intros Htarget Hsuper. cbn zeta.
  assert (0 ≤ target_size * supersample) by lia.
  unfold create_supersampled_v2, DockLogo.create_supersampled,
    CrispMenubar.create_supersampled.
  destruct (icon_v2_returns (target_size * supersample) color bg_color
              (Q2Qc 0.08)) as (c2 & -> & Hwf2 & Hs2); [done|].
  destruct (dock_icon_returns (target_size * supersample) color bg_color
              (Q2Qc 0.1)) as (c1 & -> & Hwf1 & Hs1); [done|].
  destruct (simple_tree_returns (target_size * supersample) color
              (Q2Qc 0.12)) as (c0 & -> & Hwf0 & Hs0); [done|].
  change (mbind ?f (Ok ?a)) with (f a). cbv beta.
  repeat split; by apply downsample_spec.
Qed.

(** X12.  A negative product [target_size * supersample] makes the wrappers of
    create_dock_logo.py and create_crisp_menubar.py fail with [ValueError]
    when the canvas is allocated; a target size of 0 is not an error in any
    of the three wrappers: the 0 x 0 rendering is returned. *)
Theorem supersampled_degenerate_sizes (target_size supersample : Z)
    (color : Color) (bg_color : option Color) :
  (target_size * supersample < 0 →
   DockLogo.create_supersampled target_size color bg_color supersample
   = Raise ValueError ∧
   CrispMenubar.create_supersampled target_size color supersample
   = Raise ValueError) ∧
  (∃ out,
     DockLogo.create_supersampled 0 color bg_color supersample = Ok out ∧
     im_size out = (0, 0)) ∧
  (∃ out,
     CrispMenubar.create_supersampled 0 color supersample = Ok out ∧
     im_size out = (0, 0)) ∧
  (∃ out,
     create_supersampled_v2 0 color bg_color supersample = Ok out ∧
     im_size out = (0, 0)).
Proof.
  split.
  - intros Hneg. unfold DockLogo.create_supersampled,
      DockLogo.create_grove_dock_icon, CrispMenubar.create_supersampled,
      CrispMenubar.create_simple_tree, PIL.new. cbn [fst snd].
    split; [destruct bg_color|]; by rewrite decide_True by lia.
  - unfold create_supersampled_v2, DockLogo.create_supersampled,
      CrispMenubar.create_supersampled. rewrite Z.mul_0_l.
    destruct (icon_v2_returns 0 color bg_color (Q2Qc 0.08))
      as (c2 & -> & Hwf2 & Hs2); [done|].
    destruct (dock_icon_returns 0 color bg_color (Q2Qc 0.1))
      as (c1 & -> & Hwf1 & Hs1); [done|].
    destruct (simple_tree_returns 0 color (Q2Qc 0.12))
      as (c0 & -> & Hwf0 & Hs0); [done|].
    change (mbind ?f (Ok ?a)) with (f a). cbv beta.
    destruct (canvas_pixels_spec c2 Hwf2) as [_ Hp2].
    destruct (canvas_pixels_spec c1 Hwf1) as [_ Hp1].
    destruct (canvas_pixels_spec c0 Hwf0) as [_ Hp0].
    unfold PIL.resize.
    rewrite !decide_True by congruence.
    repeat split; eexists; (split; [reflexivity|congruence]).
Qed.

End RenderFacts.

(** ** The simple tree and the tag of the first dock icon *)

Section GlyphFacts.
Context {M : MathModule} {P : Pillow}.

Lemma py_int_lower (k : Z) (q : Qc) : of_int k ≤ q → (k ≤ py_int q)%Z.
Proof.
  intros Hk. unfold py_int.
  assert (Hnum : (k * Zpos (Qden q) ≤ Qnum q)%Z).
  { unfold Qcle, Qle, of_int in Hk. simpl in Hk. lia. }
  destruct (decide (0 ≤ Qnum q)%Z) as [Hpos|Hneg].
  - rewrite Z.quot_div_nonneg by lia. apply Z.div_le_lower_bound; lia.
  - assert (k < 0)%Z by nia.
    rewrite <- (Z.opp_involutive (Qnum q)), Z.quot_opp_l by lia.
    rewrite Z.quot_div_nonneg by lia.
    pose proof (Z.mul_div_le (- Qnum q) (Zpos (Qden q)) ltac:(lia)).
    nia.
Qed.

Lemma py_int_upper (q : Qc) : 0 ≤ q → of_int (py_int q) ≤ q.
Proof.
  intros Hq. unfold py_int, Qcle, Qle, of_int in *. simpl in *.
  pose proof (Z.mul_quot_le (Qnum q) (Zpos (Qden q))). lia.
Qed.

(** X13.  [create_simple_tree] for a size of at least 0 and a padding ratio
    between 0 and 0.5: exactly one line (the trunk, vertical, at least 2
    wide) and one circle (the crown).  The crown lies between the top and
    the bottom padding line, and it reaches down over the top of the trunk,
    so that the two touch. *)
Theorem simple_tree_geometry (size : Z) (color : Color) (padding_ratio : Qc) :
  (0 ≤ size)%Z → 0 ≤ padding_ratio → 2 * padding_ratio ≤ 1 →
  ∃ canvas cx trunk_top w r y0 y1,
    let top_y := of_int (py_int (of_int size * padding_ratio)) in
    let base_y := of_int (size - py_int (of_int size * padding_ratio)) in
    CrispMenubar.create_simple_tree size color padding_ratio = Ok canvas ∧
    cv_draw canvas =
      [ DLine (cx, base_y) (cx, trunk_top) color w;
        DEllipse (cx - r) y0 (cx + r) y1 color ] ∧
    (2 ≤ w)%Z ∧
    top_y ≤ base_y ∧
    y1 - y0 = 2 * r ∧ 0 ≤ r ∧
    top_y ≤ y0 ∧ y1 ≤ base_y ∧
    trunk_top ≤ y1 ∧ trunk_top ≤ base_y.
Proof.
  intros Hsize Hratio Hhalf. unfold CrispMenubar.create_simple_tree.
  rewrite new_ok by done.
  change (mbind ?f (Ok ?a)) with (f a). cbv beta iota zeta.
  set (padding := py_int (of_int size * padding_ratio)).
  assert (Hs : 0 ≤ of_int size).
  { unfold of_int. rewrite <- Z2Qc_inj_0. by apply (proj1 (Z2Qc_inj_le _ _)). }
  assert (Hpad : of_int padding ≤ of_int size * padding_ratio).
  { apply py_int_upper. by apply Qcmult_nonneg_nonneg. }
  assert (Hbox : of_int padding ≤ of_int (size - padding)).
  { unfold of_int in *. rewrite Z2Qc_inj_sub.
    revert Hpad Hratio Hhalf Hs. generalize (Qc_of_Z padding).
    generalize (Qc_of_Z size). clear. intros s p. qc_to_q. intros. nra. }
  eexists _, _, _, _, _, _, _. split; [reflexivity|].
  unfold draw_ellipse, draw_line. cbn [cv_draw app].
  split; [reflexivity|].
  split; [apply py_int_lower; unfold py_max; destruct (decide _) as [Hlt|Hge];
          [by apply Qclt_le_weak|done]|].
  split; [exact Hbox|].
  revert Hbox. generalize (of_int (size - padding)) (of_int padding).
  generalize (of_int (size `div` 2)). clear. intros cx base_y top_y Hbox.
  repeat split.
  - apply Qc_is_canon. qc_to_q. ring.
  - revert Hbox. qc_to_q. intros. lra.
  - revert Hbox. qc_to_q. intros. lra.
  - revert Hbox. qc_to_q. intros. lra.
  - revert Hbox. qc_to_q. intros. lra.
  - revert Hbox. qc_to_q. intros. lra.
Qed.

(** X14.  Without a background colour [draw_git_tag] draws the outer square only.
    [create_grove_dock_icon] never takes that path: it passes (0, 0, 0, 0)
    for a missing background, so its tag is always cut out by a second
    square in the background colour and carries the branch symbol; the tag
    is followed by the connection line, the last call of the icon. *)
Theorem dock_icon_tag_always_cut (size : Z) (color : Color)
    (bg_color : option Color) (padding_ratio : Qc) :
  (0 ≤ size)%Z →
  (∀ draw x y s, ∃ corners,
     DockLogo.draw_git_tag draw x y s color None
     = draw ++ [DPolygon corners color]) ∧
  ∃ canvas earlier corners inner_corners symbol connection,
    DockLogo.create_grove_dock_icon size color bg_color padding_ratio
    = Ok canvas ∧
    cv_draw canvas =
      earlier
      ++ [ DPolygon corners color;
           DPolygon inner_corners (default (0, 0, 0, 0)%Z bg_color) ]
      ++ symbol ++ [connection] ∧
    List.length corners = 4%nat ∧ List.length inner_corners = 4%nat ∧
    List.length symbol = 5%nat ∧ segments symbol = 2%nat ∧
    Forall (λ op, PIL.fill_of op = color) (symbol ++ [connection]) ∧
    is_line connection = true.
Proof.
  intros Hsize. split.
  - intros. eexists. unfold DockLogo.draw_git_tag, draw_polygon. reflexivity.
  - unfold DockLogo.create_grove_dock_icon.
    assert (Hnew : ∀ c : Color,
              PIL.new (size, size) c =
              Ok {| im_size := (size, size);
                    im_px := PIL.tabulate (size, size) (λ _, c) |})
      by (intros; by apply new_ok).
    destruct bg_color as [bg|]; rewrite Hnew;
      change (mbind ?f (Ok ?a)) with (f a); cbv beta iota zeta;
      unfold DockLogo.draw_git_tag, draw_polygon, draw_ellipse;
      cbn [foldl cv_draw default];
      unfold draw_line at 1 2 3; rewrite <- !(assoc_L (++)); cbn [app];
      eexists _, _, _, _, [_; _; _; _; _], _;
      (split; [reflexivity|]); (split; [reflexivity|]);
      repeat split; repeat constructor.
Qed.

End GlyphFacts.

(** ** The tracer *)

Section TracerFacts.
Context {P : Pillow}.
Local Open Scope Z_scope.

Lemma trace_reference_remap (ref : Image Pixel) :
  well_formed ref →
  let size := ((im_size ref).1 `div` 2 - 0, (im_size ref).2 - 0) in
  let binary :=
    {| im_size := size;
       im_px := (λ p, if decide (p < 128) then 255 else 0) <$>
                (luma <$> PIL.tabulate size
                   (λ xy, default transparent
                            (im_px ref !! (xy.1 + 0, xy.2 + 0)))) |} in
  trace_reference ref =
  Ok (remap logo_pixel binary (blank size) (PIL.coords size), binary).
Proof.
  intros [[Hw Hh] Hpx]. destruct ref as [[w h] px]. simpl in *.
  unfold trace_reference. cbn [im_size]. unfold PIL.crop.
  assert (0 ≤ w `div` 2) by (apply Z.div_pos; lia).
  rewrite decide_False by lia.
  change (mbind ?f (Ok ?a)) with (f a). cbv beta.
  set (binary := PIL.point _ _).
  assert (Hsz : im_size binary = (w `div` 2 - 0, h - 0)) by done.
  assert (Hbin : well_formed binary).
  { split; [rewrite Hsz; simpl; lia|]. intros xy. rewrite Hsz.
    unfold binary, PIL.point, PIL.convert_L. simpl.
    rewrite !lookup_fmap, lookup_tabulate.
    destruct (decide _); split; try done; by intros [? ?]. }
  rewrite new_ok by (rewrite Hsz; simpl; lia).
  change (mbind ?f (Ok ?a)) with (f a). cbv beta.
  unfold range. rewrite for_each_nested.
  rewrite (remap_loop logo_pixel binary); first last.
  - apply blank_lookup.
  - done.
  - done.
  - by intros ? ?%elem_of_coords.
  - intros [x y] p res Hp Hsize. cbn [fst snd]. unfold PIL.getpixel.
    rewrite Hp. change (mbind ?f (Ok ?a)) with (f a). cbv beta.
    unfold logo_pixel. by destruct (decide (p = 255)).
  - done.
Qed.

(** X15.  The trace has the size of the left half of the reference, (width // 2,
    height), and a pixel of that half is traced as opaque black exactly
    when its luminance is below the threshold of 128; every other pixel of
    the half becomes fully transparent.  [binary] holds 255 and 0 at the
    same places. *)
Theorem trace_threshold (ref : Image Pixel) :
  well_formed ref →
  ∃ result binary,
    trace_reference ref = Ok (result, binary) ∧
    im_size result = ((im_size ref).1 `div` 2, (im_size ref).2) ∧
    im_size binary = ((im_size ref).1 `div` 2, (im_size ref).2) ∧
    ∀ xy, in_image ((im_size ref).1 `div` 2, (im_size ref).2) xy →
      ∃ p, im_px ref !! xy = Some p ∧
           (luma p < 128 →
            im_px binary !! xy = Some 255 ∧
            im_px result !! xy = Some (0, 0, 0, 255)) ∧
           (128 ≤ luma p →
            im_px binary !! xy = Some 0 ∧
            im_px result !! xy = Some (0, 0, 0, 0)).
Proof.
  intros Hwf. rewrite trace_reference_remap by done. cbn zeta.
  destruct Hwf as [[Hw Hh] Hpx]. destruct ref as [[w h] px]. simpl in *.
  replace (w `div` 2 - 0) with (w `div` 2) by lia.
  replace (h - 0) with h by lia.
  eexists _, _. split; [reflexivity|]. split; [done|]. split; [done|].
  intros [x y] Hin.
  assert (Href : in_image (w, h) (x, y)).
  { unfold in_image in *. simpl in *.
    pose proof (Z.mul_div_le w 2 ltac:(lia)). lia. }
  destruct (proj2 (Hpx (x, y)) Href) as [p Hp]. exists p. split; [done|].
  rewrite lookup_remap. cbn [im_px blank].
  rewrite !lookup_fmap, !lookup_tabulate, !decide_True by done.
  cbn [fst snd]. rewrite !Z.add_0_r, Hp.
  cbn [fmap option_fmap option_map default mbind option_bind].
  unfold id.
  rewrite !(decide_True (P := (x, y) ∈ PIL.coords (w `div` 2, h)))
    by (by apply elem_of_coords).
  split; intros Hl.
  - rewrite !(decide_True (P := luma p < 128)) by done. by split.
  - rewrite !(decide_False (P := luma p < 128)) by lia. by split.
Qed.

(** X16.  The right half of the reference is never looked at: two references of
    the same size that agree on the columns left of width // 2 have the
    same trace. *)
Theorem trace_ignores_right_half (ref1 ref2 : Image Pixel) :
  well_formed ref1 → well_formed ref2 →
  im_size ref1 = im_size ref2 →
  (∀ x y, x < (im_size ref1).1 `div` 2 →
     im_px ref1 !! (x, y) = im_px ref2 !! (x, y)) →
  ∃ traced,
    trace_reference ref1 = Ok traced ∧ trace_reference ref2 = Ok traced.
Proof.
  intros Hwf1 Hwf2 Hsize Hleft. eexists.
  split; [by apply trace_reference_remap|].
  rewrite trace_reference_remap by done. cbn zeta. rewrite <- Hsize.
  assert (Htab :
    PIL.tabulate ((im_size ref1).1 `div` 2 - 0, (im_size ref1).2 - 0)
      (λ xy, default transparent (im_px ref2 !! (xy.1 + 0, xy.2 + 0))) =
    PIL.tabulate ((im_size ref1).1 `div` 2 - 0, (im_size ref1).2 - 0)
      (λ xy, default transparent (im_px ref1 !! (xy.1 + 0, xy.2 + 0)))).
  { apply tabulate_ext. intros [x y] [Hx Hy]. cbn [fst snd] in *.
    rewrite Hleft by lia. done. }
  by rewrite Htab.
Qed.

(** X17.  [create_light_version] applied to its own output changes nothing. *)
Theorem light_version_idempotent (img : Image Pixel) :
  well_formed img →
  ∃ light,
    create_light_version img = Ok light ∧
    create_light_version light = Ok light.
Proof.
  intros Hwf. pose proof Hwf as [Hsize Hpx].
  rewrite create_light_version_remap by done.
  set (light := remap light_pixel img _ _).
  assert (Hlook : ∀ xy,
            im_px light !! xy =
            if decide (in_image (im_size img) xy)
            then Some (default (0, 0, 0, 0) (im_px img !! xy ≫= light_pixel))
            else None).
  { intros xy. unfold light. rewrite lookup_remap. cbn [im_px blank].
    rewrite lookup_tabulate.
    destruct (decide (in_image (im_size img) xy)) as [Hin|]; [|done].
    cbn [fmap option_fmap option_map].
    by rewrite decide_True by (by apply elem_of_coords). }
  assert (Hwfl : well_formed light).
  { split; [done|]. intros xy. rewrite Hlook.
    destruct (decide _); split; try done; by intros [? ?]. }
  assert (Hszl : im_size light = im_size img) by done.
  exists light. split; [done|].
  rewrite create_light_version_remap by done.
  clearbody light. destruct light as [sz lpx]. cbn [im_size im_px] in *.
  subst sz. f_equal. unfold remap. cbn [im_size im_px blank]. f_equal.
  apply map_eq. intros xy.
  rewrite map_lookup_imap, lookup_tabulate, Hlook.
  destruct (decide (in_image (im_size img) xy)) as [Hin|]; [|done].
  cbn [mbind option_bind]. rewrite decide_True by (by apply elem_of_coords).
  f_equal.
  destruct (im_px img !! xy) as [p|]; [|done]. cbn [mbind option_bind].
  unfold light_pixel, id. destruct (decide (alpha p > 0)) as [Ha|Ha];
    cbn [default].
  - change (alpha (255, 255, 255, alpha p)) with (alpha p).
    by rewrite decide_True.
  - change (alpha (0, 0, 0, 0)) with 0. by rewrite decide_False by lia.
Qed.

End TracerFacts.

(** ** The canvas of clean_and_resize *)

Section CanvasFacts.
Context {P : Pillow}.
Local Open Scope Z_scope.

Lemma py_int_negative (q : Qc) : (q ≤ of_int (-1))%Qc → py_int q ≤ -1.
Proof.
  intros Hq. unfold py_int.
  assert (Hnum : Qnum q ≤ - Zpos (Qden q)).
  { unfold Qcle, Qle, of_int in Hq. simpl in Hq. lia. }
  set (n := - Qnum q). replace (Qnum q) with (- n) by (unfold n; lia).
  rewrite Z.quot_opp_l, Z.quot_div_nonneg by lia.
  assert (1 ≤ n `div` Zpos (Qden q))
    by (apply Z.div_le_lower_bound; lia).
  lia.
Qed.

Lemma quotient_times (m d : Qc) :
  d ≠ 0%Qc → (this (m / d) * this d == this m)%Q.
Proof.
  intros Hd. assert (Heq : (m / d * d = m)%Qc) by (field; exact Hd).
  transitivity (this (m / d * d)%Qc); [|by rewrite Heq].
  change (this (m / d * d)%Qc) with (Qred (this (m / d)%Qc * this d)).
  by rewrite Qred_correct.
Qed.


(** X19.  For an image with content and a padding ratio above 0.5 and up to 1,
    the padded size comes out negative and [clean_and_resize] fails with
    the [ValueError] of the canvas allocation, whatever the target size. *)
Theorem clean_and_resize_negative_canvas (img : Image Pixel)
    (target_size : Z) (padding : Qc) :
  PIL.getbbox img ≠ None → (1 < 2 * padding)%Qc → (padding ≤ 1)%Qc →
  clean_and_resize img target_size padding = Raise ValueError.
Proof.
  intros Hsome Hover Hle. unfold clean_and_resize.
  destruct (PIL.getbbox img) as [[[[l u] r] b]|] eqn:Hbox; [|done].
  apply getbbox_Some in Hbox as (Hl & _ & Hu & _).
  unfold PIL.crop. rewrite decide_False by lia.
  change (mbind ?f (Ok ?a)) with (f a). cbv beta. cbn [im_size].
  set (d := (1 - 2 * padding)%Qc).
  assert (Hd : (d < 0)%Qc ∧ (of_int (-1) ≤ d)%Qc).
  { unfold d. revert Hover Hle. clear. qc_to_q. intros. lra. }
  assert (Hd0 : d ≠ 0%Qc).
  { intros Hz. rewrite Hz in Hd. by destruct Hd as [?%Qclt_not_eq _]. }
  unfold py_div. rewrite decide_False by done.
  change (mbind ?f (Ok ?a)) with (f a). cbv beta.
  set (m := Z.max (r - l) (b - u)).
  assert (Hneg : py_int (of_int m / d) ≤ -1).
  { apply py_int_negative.
    assert (Hm1 : (of_int 1 ≤ of_int m)%Qc).
    { unfold of_int. apply (proj1 (Z2Qc_inj_le _ _)). lia. }
    pose proof (quotient_times (of_int m) d Hd0) as Hq.
    revert Hq Hm1 Hd. generalize (of_int m / d)%Qc. generalize (of_int m).
    generalize d. clear. intros d m q. unfold Qcle, Qclt, of_int. simpl.
    rewrite ?Qred_correct. unfold inject_Z. intros. nra. }
  unfold PIL.new. cbn [fst snd]. by rewrite decide_True by lia.
Qed.

End CanvasFacts.

(** ** The pipelines and their arguments *)

Section PipelineFacts.
Context {M : MathModule} {P : Pillow}.
Local Open Scope Z_scope.

Lemma py_int_le (k : Z) (q : Qc) :
  (0 ≤ q)%Qc → (q ≤ of_int k)%Qc → py_int q ≤ k.
Proof.
  intros H0 Hk. unfold py_int.
  assert (0 ≤ Qnum q ∧ Qnum q ≤ k * Zpos (Qden q)).
  { unfold Qcle, Qle, of_int in *. simpl in *. lia. }
  rewrite Z.quot_div_nonneg by lia. apply Z.div_le_upper_bound; lia.
Qed.

(** Up to a padding ratio of 0.25 the canvas is at most twice as large as
    the larger side of the content. *)
Lemma clean_and_resize_canvas (img : Image Pixel) (target_size : Z)
    (padding : Qc) (l u r b : Z) :
  (of_int 4 * padding ≤ 1)%Qc →
  PIL.getbbox img = Some (l, u, r, b) →
  ∃ cropped padded_size,
    PIL.crop transparent img (l, u, r, b) = Ok cropped ∧
    clean_and_resize img target_size padding =
      PIL.resize
        (PIL.paste (blank (padded_size, padded_size)) cropped
           ((padded_size - (r - l)) `div` 2, (padded_size - (b - u)) `div` 2)
           cropped)
        (target_size, target_size) ∧
    0 ≤ padded_size ≤ 2 * Z.max (r - l) (b - u).
Proof.
  intros Hpad Hbox. unfold clean_and_resize. rewrite Hbox.
  apply getbbox_Some in Hbox as (Hl & _ & Hu & _).
  unfold PIL.crop. rewrite decide_False by lia.
  change (mbind ?f (Ok ?a)) with (f a). cbv beta. cbn [im_size].
  set (d := (1 - 2 * padding)%Qc).
  assert (Hd : (1 ≤ 2 * d)%Qc).
  { unfold d. revert Hpad. clear. qc_to_q. intros. lra. }
  assert (Hd0 : d ≠ 0%Qc).
  { intros Hz. rewrite Hz in Hd. revert Hd. clear. by vm_compute. }
  unfold py_div. rewrite decide_False by done.
  change (mbind ?f (Ok ?a)) with (f a). cbv beta.
  set (m := Z.max (r - l) (b - u)).
  set (padded_size := py_int (of_int m / d)).
  assert (Hm0 : (0 ≤ of_int m)%Qc).
  { unfold of_int. rewrite <- Z2Qc_inj_0.
    apply (proj1 (Z2Qc_inj_le _ _)). lia. }
  assert (Hq : (0 ≤ of_int m / d)%Qc ∧ (of_int m / d ≤ of_int (2 * m))%Qc).
  { assert (H2m : of_int (2 * m) = (2 * of_int m)%Qc).
    { unfold of_int. apply Qc_is_canon. simpl. rewrite Qred_correct.
      unfold Qeq. simpl. lia. }
    rewrite H2m.
    pose proof (quotient_times (of_int m) d Hd0) as Hq.
    revert Hq Hm0 Hd. generalize (of_int m / d)%Qc. generalize (of_int m).
    generalize d. clear. intros d m q. unfold Qcle, Qclt. simpl.
    rewrite ?Qred_correct. intros. split; nra. }
  assert (0 ≤ padded_size ≤ 2 * m).
  { destruct Hq as [Hq0 Hq1].
    split; [by apply py_int_nonneg|by apply py_int_le]. }
  rewrite new_ok by (simpl; lia).
  change (mbind ?f (Ok ?a)) with (f a). cbv beta.
  eexists _, padded_size.
  split; [reflexivity|]. split; [reflexivity|done].
Qed.

(** C6, as the code has it.  Neither pipeline checks its arguments.
    [clean_and_resize] returns a [target_size] x [target_size] image for
    every positive [target_size] and every padding ratio up to 0.25,
    negative ones included; the canvas it allocates on the way is then at
    most twice as large as the larger side of the content.  (From 0.25 to
    0.5 the canvas grows without bound, and nothing is stated.)  On an
    image with content a ratio of exactly 0.5 raises [ZeroDivisionError]
    when the padded size is computed.  [create_supersampled_v2] raises
    [ValueError] when the canvas is allocated, before anything is drawn, if
    [target_size * supersample] is negative. *)
Theorem C6_no_validation (img : Image Pixel) (target_size : Z)
    (padding : Qc) (color : Color) (bg_color : option Color)
    (supersample : Z) :
  (0 < target_size → (of_int 4 * padding ≤ 1)%Qc →
   (∃ out, clean_and_resize img target_size padding = Ok out ∧
           im_size out = (target_size, target_size)) ∧
   ∀ l u r b, PIL.getbbox img = Some (l, u, r, b) →
     ∃ cropped padded_size,
       PIL.crop transparent img (l, u, r, b) = Ok cropped ∧
       clean_and_resize img target_size padding =
         PIL.resize
           (PIL.paste (blank (padded_size, padded_size)) cropped
              ((padded_size - (r - l)) `div` 2,
               (padded_size - (b - u)) `div` 2) cropped)
           (target_size, target_size) ∧
       0 ≤ padded_size ≤ 2 * Z.max (r - l) (b - u)) ∧
  (PIL.getbbox img ≠ None →
   clean_and_resize img target_size (Q2Qc 0.5) = Raise ZeroDivisionError) ∧
  (target_size * supersample < 0 →
   create_grove_dock_icon_v2 (target_size * supersample) color bg_color
     (Q2Qc 0.08) = Raise ValueError ∧
   create_supersampled_v2 target_size color bg_color supersample
   = Raise ValueError).
Proof.
  split.
  { intros Hpos Hpad. split.
    - apply clean_and_resize_ok; [done|].
      revert Hpad. clear. qc_to_q. intros. lra.
    - intros l u r b Hbox. by apply clean_and_resize_canvas. }
  split; [apply clean_and_resize_half|].
  intros Hneg.
  assert (Hicon : create_grove_dock_icon_v2 (target_size * supersample) color
                    bg_color (Q2Qc 0.08) = Raise ValueError).
  { unfold create_grove_dock_icon_v2, PIL.new. cbn [fst snd].
    destruct bg_color; by rewrite decide_True by lia. }
  split; [done|]. unfold create_supersampled_v2. by rewrite Hicon.
Qed.

End PipelineFacts.

Lemma W6_no_validation :
  (0 < 2)%Z ∧ of_int 4 * Q2Qc (-0.25) ≤ 1 ∧
  ∃ out, @clean_and_resize nearest_pillow tiny_logo 2 (Q2Qc (-0.25)) = Ok out
         ∧ im_size out = (2, 2)%Z.
Proof.
  assert (Hsize : (0 < 2)%Z) by lia.
  assert (Hpad : of_int 4 * Q2Qc (-0.25) ≤ 1) by done.
  split; [exact Hsize|]. split; [exact Hpad|].
  exact (proj1 (proj1 (@C6_no_validation poly_math nearest_pillow tiny_logo 2
                         (Q2Qc (-0.25)) black None 4) Hsize Hpad)).
Defined.

(** ** One round of main in trace_logo.py *)

Section TracePipeline.
Context {P : Pillow}.
Local Open Scope Z_scope.

Lemma clip8_byte z : byte (PIL.clip8 z).
Proof. unfold byte, PIL.clip8. lia. Qed.

Lemma filtered_pixel_byte line ts : byte_pixel (PIL.filtered_pixel line ts).
Proof. repeat split; apply clip8_byte. Qed.

Lemma unpremultiply_byte p : byte_pixel p → byte_pixel (PIL.unpremultiply p).
Proof.
  intros Hp. unfold PIL.unpremultiply. destruct (decide _); [done|].
  destruct Hp as (_ & _ & _ & Ha). repeat split; try apply clip8_byte;
    apply Ha.
Qed.

Lemma resample_filtered img size xy q :
  im_size img ≠ size →
  im_px (PIL.resample img size) !! xy = Some q →
  ∃ line ts, q = PIL.filtered_pixel line ts.
Proof.
  destruct size as [xsize ysize], img as [[w h] px]. unfold PIL.resample.
  cbn [fst snd im_size]. intros Hne.
  destruct (decide (w = xsize)) as [->|Hx];
    cbn [fst snd im_size PIL.resample_horizontal];
    destruct (decide (h = ysize)) as [->|Hy]; [done|..];
    cbn [im_px PIL.resample_vertical PIL.resample_horizontal];
    rewrite lookup_tabulate;
    destruct (decide _); intros [= <-]; by eexists _, _.
Qed.

Lemma resize_rgba img size :
  rgba_image img → 1 ≤ size.1 → 1 ≤ size.2 →
  ∃ out, PIL.resize img size = Ok out ∧ im_size out = size ∧ rgba_image out.
Proof.
  intros [Hwf Hbytes] Hx Hy.
  destruct (resize_spec img size Hx Hy) as (out & Hout & Hsize & _ & Hwfout).
  exists out. split; [done|]. split; [done|]. split; [by apply Hwfout|].
  revert Hout. unfold PIL.resize.
  destruct (decide (im_size img = size)) as [Heq|Hne]; [by intros [= <-]|].
  rewrite decide_False by lia. cbv zeta. intros [= <-] xy p. cbn [im_px].
  rewrite lookup_fmap.
  destruct (im_px (PIL.resample _ size) !! xy) as [q|] eqn:Hq; [|done].
  intros [= <-]. apply resample_filtered in Hq as (line & ts & ->); [|done].
  apply unpremultiply_byte, filtered_pixel_byte.
Qed.

Lemma clean_and_resize_rgba (img : Image Pixel) (target_size : Z)
    (padding : Qc) :
  (∀ m d s, byte m → byte d → byte s → byte (blend m d s)) →
  rgba_image img → 1 ≤ target_size → (2 * padding < 1)%Qc →
  ∃ out,
    clean_and_resize img target_size padding = Ok out ∧
    im_size out = (target_size, target_size) ∧ rgba_image out.
Proof.
  intros Hblend Himg Htarget Hpad. unfold clean_and_resize.
  destruct (PIL.getbbox img) as [[[[l u] r] b]|] eqn:Hbox;
    [|by apply resize_rgba].
  apply getbbox_Some in Hbox as (Hl & _ & Hu & _).
  unfold PIL.crop. rewrite decide_False by lia.
  change (mbind ?f (Ok ?a)) with (f a). cbv beta. cbn [im_size].
  assert (Hden : (0 < 1 - 2 * padding)%Qc).
  { apply Qclt_minus_iff in Hpad. by unfold Qcminus. }
  unfold py_div. rewrite decide_False; last first.
  { intros Hz. rewrite Hz in Hden. by apply Qclt_not_eq in Hden. }
  change (mbind ?f (Ok ?a)) with (f a). cbv beta.
  set (padded_size := py_int _).
  assert (0 ≤ padded_size).
  { apply py_int_nonneg. apply Qcmult_nonneg_nonneg.
    - unfold of_int. rewrite <- Z2Qc_inj_0.
      apply (proj1 (Z2Qc_inj_le _ _)). lia.
    - apply Qclt_le_weak, Qcinv_pos, Hden. }
  rewrite new_ok by done.
  change (mbind ?f (Ok ?a)) with (f a). cbv beta.
  apply resize_rgba; [|simpl; lia..].
  set (cropped := {| im_size := (r - l, b - u); im_px := _ |}).
  assert (Hcrop : ∀ xy p, im_px cropped !! xy = Some p → byte_pixel p).
  { intros xy p. unfold cropped. cbn [im_px]. rewrite lookup_tabulate.
    destruct (decide _); [|done]. intros [= <-].
    destruct (im_px img !! _) as [q|] eqn:Hq; simpl.
    - by apply (proj2 Himg _ _ Hq).
    - by repeat split. }
  split.
  - split; [simpl; lia|]. intros xy. cbn [PIL.paste im_px im_size].
    rewrite map_lookup_imap, lookup_tabulate.
    destruct (decide _); split; try done; by intros [? ?].
  - intros xy p. cbn [PIL.paste im_px]. rewrite map_lookup_imap, lookup_tabulate.
    destruct (decide _); [|done]. cbn [mbind option_bind].
    destruct (im_px cropped !! _) as [s|] eqn:Hs; intros [= <-];
      [|by repeat split].
    destruct (Hcrop _ _ Hs) as (? & ? & ? & ?).
    repeat split; apply Hblend; done.
Qed.

Lemma light_version_pixels (img : Image Pixel) :
  well_formed img →
  ∃ light,
    create_light_version img = Ok light ∧
    im_size light = im_size img ∧
    ∀ xy, in_image (im_size img) xy →
      ∃ p, im_px img !! xy = Some p ∧
           im_px light !! xy =
           Some (if decide (alpha p > 0) then (255, 255, 255, alpha p)
                 else (0, 0, 0, 0)).
Proof.
  intros Hwf. eexists. split; [by apply create_light_version_remap|].
  split; [done|]. intros xy Hin.
  destruct (proj2 (proj2 Hwf xy) Hin) as [p Hp]. exists p. split; [done|].
  rewrite lookup_remap. cbn [im_px blank].
  rewrite lookup_tabulate, decide_True by done.
  cbn [fmap option_fmap option_map].
  rewrite decide_True by (by apply elem_of_coords).
  rewrite Hp. cbn [mbind option_bind]. unfold light_pixel.
  by destruct (decide (alpha p > 0)).
Qed.

(** X20.  Every pixel of a light version is either (0, 0, 0, 0) or white with the
    positive alpha of the input pixel: a fully transparent input pixel
    loses its colour, and no other colour than white ever comes out. *)
Theorem light_version_clear_or_white (img : Image Pixel) :
  well_formed img →
  ∃ light,
    create_light_version img = Ok light ∧
    ∀ xy q, im_px light !! xy = Some q →
      ∃ p, im_px img !! xy = Some p ∧
           ((alpha p ≤ 0 ∧ q = (0, 0, 0, 0)) ∨
            (0 < alpha p ∧ q = (255, 255, 255, alpha p))).
Proof.
  intros Hwf. eexists. split; [by apply create_light_version_remap|].
  intros xy q. rewrite lookup_remap. cbn [im_px blank].
  rewrite lookup_tabulate.
  destruct (decide (in_image _ xy)) as [Hin|]; [|done].
  cbn [fmap option_fmap option_map].
  rewrite decide_True by (by apply elem_of_coords).
  destruct (proj2 (proj2 Hwf xy) Hin) as [p Hp]. rewrite Hp.
  cbn [mbind option_bind]. unfold light_pixel. intros [= <-]. exists p.
  split; [done|]. destruct (decide (alpha p > 0)); simpl; [right|left];
    split; (done || lia).
Qed.

(** X21.  One round of [main]: for a well-formed 8-bit trace and a size of at
    least 1, with a blend that maps bytes to bytes, both images are
    produced without error, both are [size] x [size], the dark one is a
    well-formed 8-bit image again, and the light one has the alpha of the
    dark one at every pixel, white where that alpha is positive. *)
Theorem traced_pair_ok (traced : Image Pixel) (size : Z) :
  (∀ m d s, byte m → byte d → byte s → byte (blend m d s)) →
  rgba_image traced → 1 ≤ size →
  ∃ dark light,
    traced_pair traced size = Ok (dark, light) ∧
    im_size dark = (size, size) ∧ im_size light = (size, size) ∧
    rgba_image dark ∧
    ∀ xy, in_image (size, size) xy →
      ∃ p q, im_px dark !! xy = Some p ∧ im_px light !! xy = Some q ∧
             alpha q = alpha p ∧
             (alpha p > 0 → q = (255, 255, 255, alpha p)) ∧
             (alpha p = 0 → q = (0, 0, 0, 0)).
Proof.
  intros Hblend Htraced Hsize. unfold traced_pair.
  destruct (clean_and_resize_rgba traced size (Q2Qc 0.08) Hblend Htraced Hsize)
    as (dark & -> & Hdsize & Hdark); [done|].
  change (mbind ?f (Ok ?a)) with (f a). cbv beta.
  destruct (light_version_pixels dark (proj1 Hdark))
    as (light & -> & Hlsize & Hpixels).
  change (mbind ?f (Ok ?a)) with (f a). cbv beta.
  exists dark, light. split; [done|]. split; [done|].
  split; [congruence|]. split; [done|]. intros xy Hin.
  destruct (Hpixels xy) as (p & Hp & Hq); [by rewrite Hdsize|].
  exists p. eexists. split; [done|]. split; [exact Hq|].
  destruct (proj2 Hdark _ _ Hp) as (_ & _ & _ & [Ha0 _]).
  destruct (decide (alpha p > 0)); repeat split; try done; try lia.
  change (0 = alpha p). lia.
Qed.

End TracePipeline.

(** ** The further properties on concrete inputs *)

Lemma Ex_missing_key :
  scenario_table !! 5%Z = None ∧
  @draw_organic_branch poly_math [] (of_int 100, of_int 200) 0 (of_int 50)
    (of_int 10) 0 4 black
    (<[5%Z := {| spread := of_int 40; length_factor := Q2Qc 0.6;
                 width_factor := Q2Qc 0.7 |}]> scenario_table) =
  @draw_organic_branch poly_math [] (of_int 100, of_int 200) 0 (of_int 50)
    (of_int 10) 0 4 black scenario_table.
Proof.
  assert (H : scenario_table !! 5%Z = None) by (vm_compute; reflexivity).
  split; [exact H|].
  apply (@organic_missing_key_default poly_math [] (of_int 100, of_int 200) 0
           (of_int 50) (of_int 10) 0 4 black scenario_table 5%Z H).
Defined.

Lemma Ex_table_locality :
  @draw_organic_branch poly_math [] (of_int 100, of_int 200) 0 (of_int 50)
    (of_int 10) 0 4 black scenario_table =
  @draw_organic_branch poly_math [] (of_int 100, of_int 200) 0 (of_int 50)
    (of_int 10) 0 4 black
    (<[7%Z := {| spread := of_int 90; length_factor := Q2Qc 0.9;
                 width_factor := Q2Qc 0.9 |}]> scenario_table).
Proof.
  apply (@organic_table_locality poly_math [] (of_int 100, of_int 200) 0
           (of_int 50) (of_int 10) 0 4 black).
  intros d Hd. rewrite lookup_insert_ne by lia. reflexivity.
Defined.

Lemma Ex_count_independent :
  segments (@draw_branch poly_math [] (of_int 100, of_int 200) 0 (of_int 50)
              (of_int 10) 0 4 black) =
  segments (@draw_branch poly_math [] (0, 0) (of_int 45) (of_int 50)
              (Q2Qc 0.5) 0 4 (255, 255, 255, 255)%Z) ∧
  segments (@draw_organic_branch poly_math [] (of_int 100, of_int 200) 0
              (of_int 50) (of_int 10) 0 4 black scenario_table) =
  segments (@draw_organic_branch poly_math [] (0, 0) (of_int 45)
              (of_int 50) (of_int 10) 0 4 (255, 255, 255, 255)%Z
              {[ 0%Z := {| spread := of_int 10; length_factor := Q2Qc 0.6;
                           width_factor := Q2Qc 0.7 |} ]}).
Proof.
  apply (@branch_count_independent poly_math poly_math
           (of_int 100, of_int 200) (0, 0) 0 (of_int 45) (of_int 10) (Q2Qc 0.5)
           (of_int 50) (of_int 10) 0 4 black (255, 255, 255, 255)%Z
           scenario_table); [done|done|].
  intros d. unfold scenario_table. destruct (decide (d = 0%Z)) as [->|Hd].
  - rewrite !lookup_singleton_eq. split; reflexivity.
  - rewrite !lookup_singleton_ne by done. split; reflexivity.
Defined.

Lemma Ex_complete_branch_tree :
  (0 ≤ 2)%Z ∧ 0 ≤ of_int 10 ∧
  of_int 2 * (1 + margin) ≤ of_int 100 * Q2Qc 0.65 ^ 2 ∧
  segments (@draw_branch poly_math [] (0, 0) 0 (of_int 100) (of_int 10) 0 2
              black) = 7%nat.
Proof.
  assert (H0 : (0 ≤ 2)%Z) by lia.
  assert (Hw : 0 ≤ of_int 10) by done.
  assert (H1 : of_int 2 * (1 + margin) ≤ of_int 100 * Q2Qc 0.65 ^ 2) by done.
  split; [exact H0|]. split; [exact Hw|]. split; [exact H1|].
  exact (proj1 (@branch_complete_tree poly_math (0, 0) 0 (of_int 100)
                  (of_int 10) 2 black H0 Hw) H1).
Defined.

Lemma Ex_complete_organic_tree :
  (0 ≤ 1)%Z ∧
  clears scenario_table 2 (of_int 3 * (1 + margin)) (1 + margin) (of_int 50)
    (of_int 10) 0 ∧
  segments (@draw_organic_branch poly_math [] (of_int 100, of_int 200) 0
              (of_int 50) (of_int 10) 0 1 black scenario_table) = 3%nat.
Proof.
  assert (H0 : (0 ≤ 1)%Z) by lia.
  assert (Ht : ∀ d, let params := default default_params (scenario_table !! d) in
            (0 ≤ length_factor params ∧ length_factor params ≤ 1) ∧
            (0 ≤ width_factor params ∧ width_factor params ≤ 1)).
  { intros d. unfold scenario_table. destruct (decide (d = 0%Z)) as [->|Hd].
    - rewrite lookup_singleton_eq. by vm_compute.
    - rewrite lookup_singleton_ne by done. by vm_compute. }
  assert (H1 : clears scenario_table 2 (of_int 3 * (1 + margin)) (1 + margin)
                 (of_int 50) (of_int 10) 0).
  { cbn [clears]. repeat split; by vm_compute. }
  split; [exact H0|]. split; [exact H1|].
  exact (proj1 (@organic_complete_tree poly_math (of_int 100, of_int 200) 0
                  (of_int 50) (of_int 10) 1 black scenario_table H0 Ht) H1).
Defined.

Lemma Ex_icon_at_128 :
  ∃ canvas,
    @create_grove_dock_icon_v2 poly_math 128 black None
      (Q2Qc 0.08) = Ok canvas ∧
    List.length (cv_draw canvas) = 133%nat ∧
    segments (cv_draw canvas) = 66%nat.
Proof.
  destruct (@icon_v2_complete_from_100 poly_math 128 black None
              (Q2Qc 0.08) ltac:(lia)) as (canvas & Hc & _ & Hfull & _).
  exists canvas. split; [exact Hc|]. apply Hfull. lia.
Defined.

Lemma Ex_icon_at_16 :
  ∃ canvas,
    @create_grove_dock_icon_v2 poly_math 16 black None
      (Q2Qc 0.08) = Ok canvas ∧
    List.length (cv_draw canvas) = 9%nat.
Proof.
  destruct (@icon_v2_bare_up_to_20 poly_math 16 black None
              (Q2Qc 0.08) ltac:(lia)) as (canvas & Hc & Hlen & _).
  exists canvas. split; [exact Hc|exact Hlen].
Defined.

Lemma Ex_supersampled_size :
  ∃ out,
    @create_supersampled_v2 poly_math nearest_pillow 2 black None 2 = Ok out ∧
    im_size out = (2, 2)%Z ∧ well_formed out.
Proof.
  exact (proj1 (@supersampled_returns_target_size poly_math nearest_pillow 2 2
                  black None ltac:(lia) ltac:(lia))).
Defined.

Lemma Ex_simple_tree :
  ∃ canvas,
    CrispMenubar.create_simple_tree 22 black (Q2Qc 0.12)
    = Ok canvas ∧
    List.length (cv_draw canvas) = 2%nat.
Proof.
  destruct (simple_tree_geometry 22 black (Q2Qc 0.12)
              ltac:(lia) ltac:(done) ltac:(done))
    as (canvas & cx & trunk_top & w & r & y0 & y1 & Hc & Hdraw & _).
  exists canvas. split; [exact Hc|]. rewrite Hdraw. reflexivity.
Defined.

Lemma Ex_dock_icon_tag :
  ∃ canvas,
    @DockLogo.create_grove_dock_icon poly_math 64 black None
      (Q2Qc 0.1) = Ok canvas ∧
    ∃ op, op ∈ cv_draw canvas ∧ PIL.fill_of op = (0, 0, 0, 0)%Z.
Proof.
  destruct (@dock_icon_tag_always_cut poly_math 64 black None
              (Q2Qc 0.1) ltac:(lia))
    as (_ & canvas & earlier & corners & inner & symbol & connection
        & Hc & Hdraw & _).
  exists canvas. split; [exact Hc|].
  exists (DPolygon inner (0, 0, 0, 0)%Z). split; [|reflexivity].
  rewrite Hdraw. apply elem_of_app. right. apply list_elem_of_further.
  apply list_elem_of_here.
Defined.

Lemma Ex_trace_threshold :
  ∃ result binary,
    @trace_reference nearest_pillow tinted_logo = Ok (result, binary) ∧
    im_size result = (2, 3)%Z ∧ im_size binary = (2, 3)%Z.
Proof.
  destruct (@trace_threshold nearest_pillow tinted_logo)
    as (result & binary & Ht & Hr & Hb & _).
  { apply check_well_formed_ok. vm_compute. reflexivity. }
  exists result, binary. split; [exact Ht|]. split; [exact Hr|exact Hb].
Defined.

Lemma Ex_trace_right_half :
  ∃ traced,
    @trace_reference nearest_pillow tinted_logo = Ok traced ∧
    @trace_reference nearest_pillow
      {| im_size := (4, 3)%Z;
         im_px := <[(3, 1)%Z := (255, 255, 255, 255)%Z]> (im_px tinted_logo) |}
    = Ok traced.
Proof.
  apply (@trace_ignores_right_half nearest_pillow tinted_logo).
  - apply check_well_formed_ok. vm_compute. reflexivity.
  - apply check_well_formed_ok. vm_compute. reflexivity.
  - reflexivity.
  - intros x y Hx. cbn [im_px]. rewrite lookup_insert_ne; [reflexivity|].
    intros [= <- <-]. vm_compute in Hx. discriminate Hx.
Defined.

Lemma Ex_light_twice :
  ∃ light,
    create_light_version tiny_logo = Ok light ∧
    create_light_version light = Ok light.
Proof.
  apply (light_version_idempotent tiny_logo).
  apply check_well_formed_ok. vm_compute. reflexivity.
Defined.

Lemma Ex_light_colours :
  ∃ light,
    create_light_version tinted_logo = Ok light ∧
    ∀ xy q, im_px light !! xy = Some q →
      ∃ p, im_px tinted_logo !! xy = Some p ∧
           ((alpha p ≤ 0 ∧ q = (0, 0, 0, 0)) ∨
            (0 < alpha p ∧ q = (255, 255, 255, alpha p)))%Z.
Proof.
  apply (light_version_clear_or_white tinted_logo).
  apply check_well_formed_ok. vm_compute. reflexivity.
Defined.


Lemma Ex_negative_canvas :
  @clean_and_resize nearest_pillow tiny_logo 8 (Q2Qc 0.75) = Raise ValueError.
Proof.
  apply (@clean_and_resize_negative_canvas nearest_pillow tiny_logo 8
           (Q2Qc 0.75)).
  - vm_compute. discriminate.
  - done.
  - done.
Defined.

Lemma nearest_blend_byte (m d s : Z) :
  byte m → byte d → byte s → byte (@blend nearest_pillow m d s).
Proof.
  unfold byte. intros Hm Hd Hs. cbn [blend nearest_pillow].
  rewrite !Z.shiftr_div_pow2 by lia. change (2 ^ 8)%Z with 256%Z.
  assert (0 ≤ d * (255 - m) ≤ 255 * (255 - m))%Z.
  { split; [apply Z.mul_nonneg_nonneg; lia|].
    apply Z.mul_le_mono_nonneg_r; lia. }
  assert (0 ≤ s * m ≤ 255 * m)%Z.
  { split; [apply Z.mul_nonneg_nonneg; lia|].
    apply Z.mul_le_mono_nonneg_r; lia. }
  assert (128 ≤ d * (255 - m) + s * m + 128 ≤ 65153)%Z by lia.
  set (t := (d * (255 - m) + s * m + 128)%Z) in *.
  assert (0 ≤ t `div` 256 ≤ 254)%Z.
  { split; [apply Z.div_pos; lia|].
    apply Z.lt_succ_r, Z.div_lt_upper_bound; lia. }
  split; [apply Z.div_pos; lia|].
  apply Z.lt_succ_r, Z.div_lt_upper_bound; lia.
Qed.

Lemma Ex_traced_pair :
  ∃ dark light,
    @traced_pair nearest_pillow tiny_logo 8 = Ok (dark, light) ∧
    im_size dark = (8, 8)%Z ∧ im_size light = (8, 8)%Z.
Proof.
  destruct (@traced_pair_ok nearest_pillow tiny_logo 8 nearest_blend_byte)
    as (dark & light & Hp & Hd & Hl & _).
  { apply check_rgba_ok; vm_compute; reflexivity. }
  { lia. }
  exists dark, light. split; [exact Hp|]. split; [exact Hd|exact Hl].
Defined.
